(** * manabox_to_mongodb: the import pipeline of [src/index.js]

    A shallow embedding of the script that reads a Manabox CSV export,
    enriches every row through Scryfall's collection endpoint in batches of
    75, stores the enriched cards in MongoDB and writes one summary document.

    JavaScript numbers are IEEE-754 binary64 values and are modelled by the
    kernel's primitive floats; a cell of a CSV row is a string, held as its
    UTF-8 bytes, and an index past the end of a (short) row reads
    [undefined], modelled by [None]. *)

From Stdlib Require Import ZArith Lia PrimFloat SpecFloat FloatOps FloatAxioms.
From Stdlib Require Import Ascii String.
From stdpp Require Import base option list strings.

(** ** JavaScript numbers *)

Module JSNumber.

Local Open Scope Z_scope.

(** The nearest binary64 value (ties to even) of the rational
    [(-1)^neg * num / den], for [0 <= num] and [0 < den]: the quotient is
    taken with 64 extra bits and a sticky bit, then rounded once. *)
Definition round_ratio (neg : bool) (num den : Z) : float :=
  if num =? 0 then (if neg then neg_zero else PrimFloat.zero)
  else
    let s := 64 + Z.log2 den + 1 in
    let q := (num * 2 ^ s) / den in
    let r := (num * 2 ^ s) mod den in
    let m := 2 * q + (if r =? 0 then 0 else 1) in
    SF2Prim (binary_normalize prec emax (if neg then - m else m) (- s - 1) neg).

Definition hex_digit_of (c : ascii) : option Z :=
  let n := Z.of_N (N_of_ascii c) in
  if (48 <=? n) && (n <=? 57) then Some (n - 48)
  else if (97 <=? n) && (n <=? 102) then Some (n - 87)
  else if (65 <=? n) && (n <=? 70) then Some (n - 55)
  else None.

Definition digit_in (base : Z) (c : ascii) : option Z :=
  match hex_digit_of c with
  | Some d => if d <? base then Some d else None
  | None => None
  end.

(** The longest prefix of digits of [cs] in [base], as the number read so
    far and the count of digits, and the rest of the input. *)
Fixpoint digits (base : Z) (cs : list ascii) (acc : Z) (n : nat)
  : Z * nat * list ascii :=
  match cs with
  | c :: cs' =>
      match digit_in base c with
      | Some d => digits base cs' (base * acc + d) (S n)
      | None => (acc, n, cs)
      end
  | [] => (acc, n, [])
  end.

Definition byte_of (c : ascii) : Z := Z.of_N (N_of_ascii c).

(** A continuation byte of UTF-8. *)
Definition is_cont (b : Z) : bool := (128 <=? b) && (b <=? 191).

(** The code points of a string held as UTF-8 bytes, as the decoder of the
    file reads them: a byte that starts no well-formed sequence (overlong
    forms and surrogates included) is read as U+FFFD. *)
Fixpoint utf8_decode (cs : list ascii) : list Z :=
  match cs with
  | [] => []
  | c1 :: t1 =>
      let b1 := byte_of c1 in
      if b1 <? 128 then b1 :: utf8_decode t1
      else
        match t1 with
        | [] => [65533]
        | c2 :: t2 =>
            let b2 := byte_of c2 in
            if (194 <=? b1) && (b1 <=? 223) then
              if is_cont b2
              then ((b1 - 192) * 64 + (b2 - 128)) :: utf8_decode t2
              else 65533 :: utf8_decode t1
            else
              match t2 with
              | [] => 65533 :: utf8_decode t1
              | c3 :: t3 =>
                  let b3 := byte_of c3 in
                  if (224 <=? b1) && (b1 <=? 239) then
                    if (if b1 =? 224 then (160 <=? b2) && (b2 <=? 191)
                        else if b1 =? 237 then (128 <=? b2) && (b2 <=? 159)
                        else is_cont b2)
                       && is_cont b3
                    then ((b1 - 224) * 4096 + (b2 - 128) * 64 + (b3 - 128))
                         :: utf8_decode t3
                    else 65533 :: utf8_decode t1
                  else
                    match t3 with
                    | [] => 65533 :: utf8_decode t1
                    | c4 :: t4 =>
                        let b4 := byte_of c4 in
                        if (240 <=? b1) && (b1 <=? 244)
                           && (if b1 =? 240 then (144 <=? b2) && (b2 <=? 191)
                               else if b1 =? 244
                                    then (128 <=? b2) && (b2 <=? 143)
                                    else is_cont b2)
                           && is_cont b3 && is_cont b4
                        then ((b1 - 240) * 262144 + (b2 - 128) * 4096
                              + (b3 - 128) * 64 + (b4 - 128))
                             :: utf8_decode t4
                        else 65533 :: utf8_decode t1
                    end
              end
        end
  end.

(** StrWhiteSpaceChar: the code points TAB, VT, FF, U+FEFF and those of
    category Zs (WhiteSpace), and LF, CR, U+2028, U+2029 (LineTerminator). *)
Definition is_white (cp : Z) : bool :=
  ((9 <=? cp) && (cp <=? 13))
  || (cp =? 32) || (cp =? 160) || (cp =? 5760)
  || ((8192 <=? cp) && (cp <=? 8202))
  || (cp =? 8232) || (cp =? 8233) || (cp =? 8239) || (cp =? 8287)
  || (cp =? 12288) || (cp =? 65279).

Fixpoint trim_left (cps : list Z) : list Z :=
  match cps with
  | cp :: cps' => if is_white cp then trim_left cps' else cps
  | [] => []
  end.

Definition trim (cps : list Z) : list Z :=
  reverse (trim_left (reverse (trim_left cps))).

(** The characters of a numeral are ASCII: the code points as characters,
    or [None] when one of them is beyond U+007F. *)
Fixpoint ascii_only (cps : list Z) : option (list ascii) :=
  match cps with
  | [] => Some []
  | cp :: cps' =>
      if cp <? 128 then
        match ascii_only cps' with
        | Some cs => Some (ascii_of_N (Z.to_N cp) :: cs)
        | None => None
        end
      else None
  end.

Definition sign_of (cs : list ascii) : bool * list ascii :=
  match cs with
  | "-"%char :: cs' => (true, cs')
  | "+"%char :: cs' => (false, cs')
  | _ => (false, cs)
  end.

(** ExponentPart, optional: [e] or [E], a signed integer, then the end. *)
Definition exponent (cs : list ascii) : option Z :=
  match cs with
  | [] => Some 0
  | c :: cs' =>
      if (Ascii.eqb c "e" || Ascii.eqb c "E")%bool then
        let '(neg, ds) := sign_of cs' in
        match digits 10 ds 0 0%nat with
        | (_, O, _) => None
        | (e, _, []) => Some (if neg then - e else e)
        | _ => None
        end
      else None
  end.

(** StrUnsignedDecimalLiteral without [Infinity]: the value as a ratio. *)
Definition unsigned_decimal (cs : list ascii) : option (Z * Z) :=
  let '(ip, ni, r1) := digits 10 cs 0 0%nat in
  let '(mant, nf, r2) :=
    match r1 with
    | "."%char :: r => digits 10 r ip 0%nat
    | _ => (ip, 0%nat, r1)
    end in
  let dotted := match r1 with "."%char :: _ => true | _ => false end in
  if (Nat.eqb ni 0 && (negb dotted || Nat.eqb nf 0))%bool then None
  else
    match exponent r2 with
    | Some e =>
        let p := e - Z.of_nat nf in
        Some (if 0 <=? p then (mant * 10 ^ p, 1) else (mant, 10 ^ (- p)))
    | None => None
    end.

Definition str_decimal (cs : list ascii) : option float :=
  let '(neg, r) := sign_of cs in
  if String.eqb (string_of_list_ascii r) "Infinity"
  then Some (if neg then neg_infinity else infinity)
  else
    match unsigned_decimal r with
    | Some (num, den) => Some (round_ratio neg num den)
    | None => None
    end.

(** NonDecimalIntegerLiteral: [0x], [0o] and [0b] numerals, unsigned. *)
Definition non_decimal (cs : list ascii) : option float :=
  match cs with
  | "0"%char :: p :: ds =>
      let base :=
        if (Ascii.eqb p "x" || Ascii.eqb p "X")%bool then Some 16
        else if (Ascii.eqb p "o" || Ascii.eqb p "O")%bool then Some 8
        else if (Ascii.eqb p "b" || Ascii.eqb p "B")%bool then Some 2
        else None in
      match base with
      | Some b =>
          match digits b ds 0 0%nat with
          | (_, O, _) => None
          | (v, _, []) => Some (round_ratio false v 1)
          | _ => None
          end
      | None => None
      end
  | _ => None
  end.

(** [StringToNumber]: the Number a string converts to.  The string is held
    as its UTF-8 bytes; the white space around the numeral is dropped, the
    empty string is [+0], and a string that is no StringNumericLiteral is
    [NaN]. *)
Definition StringToNumber (s : string) : float :=
  match trim (utf8_decode (list_ascii_of_string s)) with
  | [] => PrimFloat.zero
  | cps =>
      match ascii_only cps with
      | None => nan
      | Some cs =>
          match non_decimal cs with
          | Some f => f
          | None =>
              match str_decimal cs with
              | Some f => f
              | None => nan
              end
          end
      end
  end.

(** [ToNumber] of a cell: [undefined] converts to [NaN]. *)
Definition ToNumber (v : option string) : float :=
  match v with
  | Some s => StringToNumber s
  | None => nan
  end.

End JSNumber.

Import JSNumber.

(** ** Data model *)

(** The three image sizes the importer keeps of an [image_uris] object. *)
Record image_uris := ImageUris {
  small : string;
  normal : string;
  large : string
}.

(** [images] of a stored card: [front] always, [back] only when assigned. *)
Record ImageSet := {
  front : image_uris;
  back : option image_uris
}.

(** An inventory record as [readCsv] builds it; the fields below [price] are
    absent ([None]) until [processBatch] assigns them. *)
Record record := {
  foil : bool;
  quantity : option string;
  manaboxId : option string;
  scryfallId : option string;
  price : float;
  name : option string;
  setCode : option string;
  setName : option string;
  rarity : option string;
  layout : option string;
  images : option ImageSet
}.

(** One face of a card object of the service. *)
Record card_face := { face_image_uris : option image_uris }.

(** A card object of the service's [data] list, with the fields the importer
    reads: [id], [name], [set], [set_name], [rarity], [layout], and
    [image_uris] or [card_faces], either of which may be missing. *)
Record scryfall_card := {
  card_id : string;
  card_name : string;
  card_set : string;
  card_set_name : string;
  card_rarity : string;
  card_layout : string;
  card_image_uris : option image_uris;
  card_faces : option (list card_face)
}.

(** The summary document of [saveCollection]. *)
Record collection_doc := {
  value : float;
  total : nat;
  updated : Z
}.

(** The module's variables and what the process can observe of its
    collaborators: the mongoose handle [db] and whether its connection is
    open, the two collections, the running totals, and the lookup requests
    posted so far (each the list of [id]s of its [identifiers]). *)
Record world := {
  db : bool;
  connected : bool;
  magicCards : list record;
  magicCollection : list collection_doc;
  totalCards : nat;
  totalPrice : float;
  requests : list (list (option string))
}.

(** The collaborators: the answer of the service to the [n]-th request
    ([None] when axios rejects: transport error or non-2xx status), whether
    [insertMany] accepts a list of documents (mongoose validates them
    against the schema of [connectToDb]; a rejection stores none), and the
    clock.  Connecting, emptying the collections, the write of a summary
    that passes validation, and disconnecting are taken to succeed. *)
Record env := {
  scryfall : nat -> list (option string) -> option (list scryfall_card);
  insertMany_ok : list record -> bool;
  now : Z
}.

Definition BATCH_SIZE : nat := 75.

(** ** Control: return, rejected promise, process exit *)

Inductive outcome (A : Type) : Type :=
| Returned (a : A) (w : world)
| Thrown (w : world)
| Exited (code : Z) (w : world).
Arguments Returned {A} a w.
Arguments Thrown {A} w.
Arguments Exited {A} code w.

Definition M (A : Type) : Type := world -> outcome A.

Definition ret {A} (a : A) : M A := fun w => Returned a w.

Definition bind {A B} (m : M A) (k : A -> M B) : M B :=
  fun w =>
    match m w with
    | Returned a w' => k a w'
    | Thrown w' => Thrown w'
    | Exited c w' => Exited c w'
    end.

Definition throw {A} : M A := fun w => Thrown w.

Definition try_catch {A} (m : M A) (handler : M A) : M A :=
  fun w =>
    match m w with
    | Thrown w' => handler w'
    | o => o
    end.

Definition modify (f : world -> world) : M unit := fun w => Returned tt (f w).

#[global] Instance M_ret : MRet M := @ret.
#[global] Instance M_bind : MBind M := fun A B k m => bind m k.

Definition world_of {A} (o : outcome A) : world :=
  match o with
  | Returned _ w | Thrown w | Exited _ w => w
  end.

(** ** The functions of index.js *)

Definition disconnect (w : world) : world :=
  {| db := db w; connected := false; magicCards := magicCards w;
     magicCollection := magicCollection w; totalCards := totalCards w;
     totalPrice := totalPrice w; requests := requests w |}.

(** [exit(err)]: disconnect when [db] is set, then [process.exit(1)]. *)
Definition exit {A} : M A :=
  fun w => Exited 1 (if db w then disconnect w else w).

(** The body of the loop of [readCsv]. *)
Definition readRow (row : list string) : record :=
  {| foil := if decide (row !! 4%nat = Some "normal") then false else true;
     quantity := row !! 6%nat;
     manaboxId := row !! 7%nat;
     scryfallId := row !! 8%nat;
     price := PrimFloat.mul (ToNumber (row !! 9%nat)) 100;
     name := None; setCode := None; setName := None; rarity := None;
     layout := None; images := None |}.

(** [readCsv], over the rows the parser yields (the header line skipped). *)
Fixpoint readCsv (rows : list (list string)) : list record :=
  match rows with
  | [] => []
  | row :: rows' => readRow row :: readCsv rows'
  end.

(** [saveCards(cards)]: [insertMany] stores the documents, or rejects and
    stores none. *)
Definition saveCards (e : env) (cards : list record) : M unit :=
  fun w =>
    if insertMany_ok e cards then
      Returned tt
        {| db := db w; connected := connected w;
           magicCards := magicCards w ++ cards;
           magicCollection := magicCollection w; totalCards := totalCards w;
           totalPrice := totalPrice w; requests := requests w |}
    else Thrown w.

(** [saveCollection()]: one document from the two totals.  [save]
    validates it against the schema of [connectToDb], where [value] is a
    required Number: [NaN] does not pass mongoose's cast, and the promise
    rejects with nothing written (an infinite value passes; [total] is a
    count and [updated] a date, which always pass). *)
Definition saveCollection (e : env) : M unit :=
  fun w =>
    if PrimFloat.is_nan (totalPrice w) then Thrown w
    else
      Returned tt
        {| db := db w; connected := connected w; magicCards := magicCards w;
           magicCollection :=
             magicCollection w ++
             [{| value := totalPrice w; total := totalCards w;
                 updated := now e |}];
           totalCards := totalCards w; totalPrice := totalPrice w;
           requests := requests w |}.

(** The [axios] call of [processBatch]: the request is posted, and the
    promise resolves with the [data] list or rejects. *)
Definition post (e : env) (identifiers : list (option string))
  : M (list scryfall_card) :=
  fun w =>
    let w' :=
      {| db := db w; connected := connected w; magicCards := magicCards w;
         magicCollection := magicCollection w; totalCards := totalCards w;
         totalPrice := totalPrice w;
         requests := requests w ++ [identifiers] |} in
    match scryfall e (length (requests w)) identifiers with
    | Some data => Returned data w'
    | None => Thrown w'
    end.

(** [totalPrice += x]. *)
Definition addTotalPrice (x : float) : M unit :=
  modify (fun w =>
    {| db := db w; connected := connected w; magicCards := magicCards w;
       magicCollection := magicCollection w; totalCards := totalCards w;
       totalPrice := PrimFloat.add (totalPrice w) x;
       requests := requests w |}).

(** [totalCards += n]. *)
Definition addTotalCards (n : nat) : M unit :=
  modify (fun w =>
    {| db := db w; connected := connected w; magicCards := magicCards w;
       magicCollection := magicCollection w;
       totalCards := totalCards w + n;
       totalPrice := totalPrice w; requests := requests w |}).

(** The [images] object built for a card object; [None] when reading the
    faces throws a TypeError ([card_faces] missing or empty, or a face read
    without [image_uris]). *)
Definition imageSet (card : scryfall_card) : option ImageSet :=
  match card_image_uris card with
  | Some u => Some {| front := u; back := None |}
  | None =>
      faces ← card_faces card;
      f0 ← faces !! 0%nat;
      u0 ← face_image_uris f0;
      if decide (1 < length faces) then
        f1 ← faces !! 1%nat;
        u1 ← face_image_uris f1;
        Some {| front := u0; back := Some u1 |}
      else Some {| front := u0; back := None |}
  end.

(** The assignments [newCard.name = card.name] ... [newCard.layout]. *)
Definition setFields (card : scryfall_card) (o : record) : record :=
  {| foil := foil o; quantity := quantity o; manaboxId := manaboxId o;
     scryfallId := scryfallId o; price := price o;
     name := Some (card_name card); setCode := Some (card_set card);
     setName := Some (card_set_name card); rarity := Some (card_rarity card);
     layout := Some (card_layout card); images := images o |}.

(** The assignment [newCard.images = ...]. *)
Definition setImages (im : ImageSet) (o : record) : record :=
  {| foil := foil o; quantity := quantity o; manaboxId := manaboxId o;
     scryfallId := scryfallId o; price := price o;
     name := name o; setCode := setCode o; setName := setName o;
     rarity := rarity o; layout := layout o; images := Some im |}.

(** [newCard.price * newCard.quantity]: [quantity] is the cell's string. *)
Definition lineValue (o : record) : float :=
  PrimFloat.mul (price o) (ToNumber (quantity o)).

(** The objects of one batch and the array [cards].  The records of a batch
    are objects mutated in place, and [cards] holds references to them: an
    entry of [cards] is the position of its object in the batch. *)
Record batch_state := {
  objs : list record;
  cards : list nat
}.

(** [records.find(o => o.scryfallId === card.id)]: the first match, with
    its position. *)
Definition find (os : list record) (cid : string) : option (nat * record) :=
  list_find (fun o => scryfallId o = Some cid) os.

(** One turn of the loop over [res.data.data].  [find] returning
    [undefined] makes the first assignment throw. *)
Definition mergeCard (card : scryfall_card) (b : batch_state) : M batch_state :=
  match find (objs b) (card_id card) with
  | None => throw
  | Some (i, o) =>
      let o1 := setFields card o in
      addTotalPrice (lineValue o1);;
      match imageSet card with
      | None => throw
      | Some im =>
          mret {| objs := <[i := setImages im o1]> (objs b);
                  cards := cards b ++ [i] |}
      end
  end.

Fixpoint mergeCards (data : list scryfall_card) (b : batch_state)
  : M batch_state :=
  match data with
  | [] => mret b
  | card :: data' => b' ← mergeCard card b; mergeCards data' b'
  end.

(** The documents [insertMany] receives: each reference of [cards] read
    through to its object. *)
Definition documents (b : batch_state) : list record :=
  omap (fun i => objs b !! i) (cards b).

(** The [id]s of the [identifiers] array of a request, one per record of
    the batch, in the order of the batch. *)
Definition identifiers (records : list record) : list (option string) :=
  scryfallId <$> records.

Definition processBatch (e : env) (records : list record) : M nat :=
  try_catch
    (data ← post e (identifiers records);
     b ← mergeCards data {| objs := records; cards := [] |};
     saveCards e (documents b);;
     mret (length records))
    exit.

(** [records.slice(i, j)] for [i <= j]. *)
Definition slice (records : list record) (i j : nat) : list record :=
  take (j - i) (drop i records).

(** The loop of [processRecords]; every turn advances [i] by [BATCH_SIZE],
    so [length records] turns of fuel are never used up. *)
Fixpoint processRecords_loop (e : env) (fuel : nat) (records : list record)
  (i : nat) : M unit :=
  match fuel with
  | O => mret tt
  | S fuel' =>
      if decide (i < length records) then
        n ← processBatch e (slice records i (i + BATCH_SIZE));
        addTotalCards n;;
        processRecords_loop e fuel' records (i + BATCH_SIZE)
      else mret tt
  end.

Definition processRecords (e : env) (records : list record) : M unit :=
  processRecords_loop e (length records) records 0;;
  saveCollection e.

(** [connectToDb()]: the handle is set and both collections are emptied. *)
Definition connectToDb : M unit :=
  modify (fun w =>
    {| db := true; connected := true; magicCards := [];
       magicCollection := []; totalCards := totalCards w;
       totalPrice := totalPrice w; requests := requests w |}).

(** The main function, over the rows of the CSV file. *)
Definition main (e : env) (rows : list (list string)) : M unit :=
  try_catch
    (connectToDb;;
     let records := readCsv rows in
     processRecords e records;;
     modify (fun w => if db w then disconnect w else w))
    exit.

(** The state a process starts in, over the collections as an earlier run
    left them. *)
Definition boot (cards0 : list record) (coll0 : list collection_doc) : world :=
  {| db := false; connected := false; magicCards := cards0;
     magicCollection := coll0; totalCards := 0; totalPrice := 0;
     requests := [] |}.

(** A run: the exit status of the process and the final state. *)
Definition run (e : env) (rows : list (list string)) (w : world) : Z * world :=
  match main e rows w with
  | Returned _ w' => (0%Z, w')
  | Exited c w' => (c, w')
  | Thrown w' => (1%Z, w')
  end.

(** The slices the loop of [processRecords] takes, in order. *)
Fixpoint batches_loop (fuel : nat) (records : list record) (i : nat)
  : list (list record) :=
  match fuel with
  | O => []
  | S fuel' =>
      if decide (i < length records) then
        slice records i (i + BATCH_SIZE)
        :: batches_loop fuel' records (i + BATCH_SIZE)
      else []
  end.

Definition batches (records : list record) : list (list record) :=
  batches_loop (length records) records 0.

(** The loop of [processRecords] as a traversal of a list of batches. *)
Definition forBatches (e : env) (bs : list (list record)) : M unit :=
  foldr (fun b k => n ← processBatch e b; addTotalCards n;; k) (mret tt) bs.

(** ** Sample rows, card objects and services *)

Module Sample.

(** A row of a Manabox export with the five columns the importer reads. *)
Definition row (finish qty mid sid prc : string) : list string :=
  ["Opt"; "XLN"; "Ixalan"; "65"; finish; "common"; qty; mid; sid; prc].

Definition uris (tag : string) : image_uris :=
  {| small := tag +:+ "/small.jpg"; normal := tag +:+ "/normal.jpg";
     large := tag +:+ "/large.jpg" |}.

(** A single-faced card object. *)
Definition card (cid : string) : scryfall_card :=
  {| card_id := cid; card_name := "Opt"; card_set := "xln";
     card_set_name := "Ixalan"; card_rarity := "common";
     card_layout := "normal";
     card_image_uris := Some (uris cid); card_faces := None |}.

(** A card object with faces and no [image_uris] of its own. *)
Definition faced (cid : string) (faces : list card_face) : scryfall_card :=
  {| card_id := cid; card_name := "Delver of Secrets // Insectile Aberration";
     card_set := "isd"; card_set_name := "Innistrad";
     card_rarity := "common"; card_layout := "transform";
     card_image_uris := None; card_faces := Some faces |}.

Definition face (tag : string) : card_face :=
  {| face_image_uris := Some (uris tag) |}.

Definition known (req : list (option string)) : list scryfall_card :=
  omap (fmap card) req.

(** The service answers every identifier, in the order of the request. *)
Definition env_all : env :=
  {| scryfall := fun _ req => Some (known req);
     insertMany_ok := fun _ => true; now := 0 |}.

(** The service answers in reverse order. *)
Definition env_reversed : env :=
  {| scryfall := fun _ req => Some (reverse (known req));
     insertMany_ok := fun _ => true; now := 0 |}.

(** The service does not know the identifier [unknown]. *)
Definition env_missing (unknown : string) : env :=
  {| scryfall := fun _ req =>
       Some (filter (fun c => card_id c <> unknown) (known req));
     insertMany_ok := fun _ => true; now := 0 |}.

(** The service answers every identifier, and the store validates as a
    schema of Numbers does: a document whose price or quantity is no number
    is rejected. *)
Definition env_strict : env :=
  {| scryfall := fun _ req => Some (known req);
     insertMany_ok :=
       forallb (fun o => negb (PrimFloat.is_nan (price o))
                         && negb (PrimFloat.is_nan (ToNumber (quantity o))));
     now := 0 |}.

(** The service does not know the identifier [unknown], and the store
    validates as [env_strict] does. *)
Definition env_strict_missing (unknown : string) : env :=
  {| scryfall := scryfall (env_missing unknown);
     insertMany_ok := insertMany_ok env_strict; now := 0 |}.

(** The service answers every identifier, and the store rejects whatever
    it is handed. *)
Definition env_rejecting : env :=
  {| scryfall := fun _ req => Some (known req);
     insertMany_ok := fun _ => false; now := 0 |}.

(** Every request fails. *)
Definition env_down : env :=
  {| scryfall := fun _ _ => None;
     insertMany_ok := fun _ => true; now := 0 |}.

Definition rows2 : list (list string) :=
  [row "normal" "2" "m1" "a" "1.25"; row "foil" "1" "m2" "b" "0.07"].

Definition rows3 : list (list string) :=
  [row "normal" "2" "m1" "a" "1.25"; row "foil" "1" "m2" "b" "0.50";
   row "normal" "3" "m3" "c" "2.00"].

(** One row per identifier, quantity 4 each. *)
Definition rows_of (ids : list string) : list (list string) :=
  (fun sid => row "normal" "4" ("m-" +:+ sid) sid "1.00") <$> ids.

(** Two batches, of 5 and of 3 records. *)
Definition batches53 : list (list record) :=
  [readCsv (rows_of ["a"; "b"; "c"; "d"; "e"]);
   readCsv (rows_of ["f"; "g"; "h"])].

End Sample.

(** ** Vocabulary of the statements *)

(** The fields [readCsv] sets; [processBatch] never assigns them. *)
Definition base (o : record)
  : bool * option string * option string * option string * float :=
  (foil o, quantity o, manaboxId o, scryfallId o, price o).

(** All the fields [processBatch] assigns are present. *)
Definition is_enriched (o : record) : bool :=
  bool_decide (is_Some (name o)) && bool_decide (is_Some (setCode o))
  && bool_decide (is_Some (setName o)) && bool_decide (is_Some (rarity o))
  && bool_decide (is_Some (layout o)) && bool_decide (is_Some (images o)).

(** For each card object of a response that [find] matches, the position
    of the record it is merged onto ... *)
Definition targets (os : list record) (data : list scryfall_card) : list nat :=
  omap (fun card => fst <$> find os (card_id card)) data.

(** ... and that record, both in the order of the response. *)
Definition matched (os : list record) (data : list scryfall_card)
  : list record :=
  omap (fun card => snd <$> find os (card_id card)) data.

(** The same, field by field; [front] is a field of every image set. *)
Definition has_all_fields (o : record) : Prop :=
  is_Some (name o) /\ is_Some (setCode o) /\ is_Some (setName o)
  /\ is_Some (rarity o) /\ is_Some (layout o)
  /\ exists im, images o = Some im.

(** [i] is the position of the first record of [os] whose [scryfallId] is
    the [id] of [card]. *)
Definition first_match (os : list record) (card : scryfall_card) (i : nat)
  : Prop :=
  exists o, os !! i = Some o
    /\ scryfallId o = Some (card_id card)
    /\ forall j oj, os !! j = Some oj -> j < i ->
         scryfallId oj <> Some (card_id card).

(** The fields of the state that [mergeCards] leaves alone. *)
Definition same_store (w w' : world) : Prop :=
  db w' = db w /\ connected w' = connected w
  /\ magicCards w' = magicCards w /\ magicCollection w' = magicCollection w
  /\ totalCards w' = totalCards w /\ requests w' = requests w.

(** Every reference of [cards] points at an enriched object. *)
Definition cards_enriched (b : batch_state) : Prop :=
  Forall (fun i => exists o, objs b !! i = Some o /\ is_enriched o = true)
         (cards b).

(** Every request of the log got an answer from the service. *)
Definition calls_ok (e : env) (w : world) : Prop :=
  forall j req, requests w !! j = Some req -> is_Some (scryfall e j req).

(** What the turn of the loop for [card] leaves in the record it is
    merged onto, when it reads the images. *)
Definition merged (card : scryfall_card) (o : record) : record :=
  match imageSet card with
  | Some im => setImages im (setFields card o)
  | None => o
  end.

(** The state after [totalCards += n]. *)
Definition counted (n : nat) (w : world) : world :=
  {| db := db w; connected := connected w; magicCards := magicCards w;
     magicCollection := magicCollection w; totalCards := totalCards w + n;
     totalPrice := totalPrice w; requests := requests w |}.

(** The state of a fresh process once [connectToDb] has returned. *)
Definition started : world :=
  {| db := true; connected := true; magicCards := []; magicCollection := [];
     totalCards := 0; totalPrice := 0; requests := [] |}.

(** The state a run that completes ends in, from the state its loop left:
    the summary document is written and the connection is closed. *)
Definition finished (e : env) (w : world) : world :=
  {| db := db w; connected := false; magicCards := magicCards w;
     magicCollection :=
       magicCollection w ++
       [{| value := totalPrice w; total := totalCards w; updated := now e |}];
     totalCards := totalCards w; totalPrice := totalPrice w;
     requests := requests w |}.

(** [records.find] gave a record for every card object of the response,
    and every card object has images to read. *)
Definition well_formed (records : list record) (data : list scryfall_card)
  : Prop :=
  forall card, card ∈ data ->
    is_Some (find records (card_id card)) /\ is_Some (imageSet card).

(** The document that the card object [card] of the response [data]
    yields: the first record of the batch with its identifier, as the last
    card object of the response with that identifier leaves it. *)
Definition doc_for (records : list record) (data : list scryfall_card)
  (card : scryfall_card) : option record :=
  match find records (card_id card),
        last (filter (fun c => card_id c = card_id card) data) with
  | Some (_, r), Some card' => Some (merged card' r)
  | _, _ => None
  end.

(** The documents of a batch for a response that is well formed: one per
    card object, in the order of the response. *)
Definition batch_documents (records : list record)
  (data : list scryfall_card) : list record :=
  omap (doc_for records data) data.

(** The document [d] is the first record of the batch whose [scryfallId]
    is the [id] of [card], with the fields and images of the last card
    object of the response [data] that has this [id]. *)
Definition merged_onto_first (records : list record)
  (data : list scryfall_card) (card : scryfall_card) (d : record) : Prop :=
  exists i r card',
    first_match records card i
    /\ records !! i = Some r
    /\ last (filter (fun c => card_id c = card_id card) data) = Some card'
    /\ is_Some (imageSet card')
    /\ d = merged card' r.

(** The batches [bs] are each answered, from the call number [n0] on, by a
    response that is well formed, and the store takes the documents of each
    batch. *)
Definition answered_well (e : env) (n0 : nat) (bs : list (list record))
  : Prop :=
  forall k b, bs !! k = Some b ->
    exists data,
      scryfall e (n0 + k) (identifiers b) = Some data
      /\ well_formed b data
      /\ insertMany_ok e (batch_documents b data) = true.

(** The batches [bs] are each answered, from the call number [n0] on, with
    one card object per record, in the order of the request, each with
    images to read; no batch holds an identifier twice; and the store takes
    the documents of each batch. *)
Definition answered_in_order (e : env) (n0 : nat) (bs : list (list record))
  : Prop :=
  forall k b, bs !! k = Some b ->
    NoDup (identifiers b)
    /\ exists data,
         scryfall e (n0 + k) (identifiers b) = Some data
         /\ (fun card => Some (card_id card)) <$> data = identifiers b
         /\ Forall (fun card => is_Some (imageSet card)) data
         /\ insertMany_ok e (batch_documents b data) = true.

(** The records whose price times quantity [processBatch] adds to
    [totalPrice], batch after batch from the call number [n0] on: for each
    batch, the records that the card objects of its response match. *)
Fixpoint priced (e : env) (n0 : nat) (bs : list (list record))
  : list record :=
  match bs with
  | [] => []
  | b :: bs =>
      match scryfall e n0 (identifiers b) with
      | Some data => matched b data
      | None => []
      end ++ priced e (S n0) bs
  end.

(** * Properties *)

Ltac unfold_M :=
  unfold mbind, M_bind, bind, mret, M_ret, ret, throw, modify in *.

(** ** Batching *)

Section Batching.

Variable records : list record.

Lemma BATCH_SIZE_pos : 0 < BATCH_SIZE.
Proof. unfold BATCH_SIZE. lia. Qed.

Lemma slice_take_drop (i : nat) :
  slice records i (i + BATCH_SIZE) = take BATCH_SIZE (drop i records).
Proof. unfold slice. f_equal. lia. Qed.

Lemma batches_loop_concat (fuel : nat) :
  forall i, length records <= i + fuel ->
    concat (batches_loop fuel records i) = drop i records.
Proof.
  induction fuel as [|fuel IH]; intros i Hf; simpl.
  - symmetry. apply drop_ge. lia.
  - destruct (decide (i < length records)) as [Hlt|Hge]; simpl.
    + rewrite IH by (pose proof BATCH_SIZE_pos; lia).
      rewrite slice_take_drop, <- drop_drop.
      apply take_drop.
    + symmetry. apply drop_ge. lia.
Qed.

Lemma ceil_step (n : nat) :
  0 < n ->
  (n + (BATCH_SIZE - 1)) / BATCH_SIZE
  = S ((n - BATCH_SIZE + (BATCH_SIZE - 1)) / BATCH_SIZE).
Proof.
  intros Hn. unfold BATCH_SIZE. change (75 - 1) with 74.
  destruct (Nat.lt_ge_cases n 75) as [Hlt|Hge].
  - replace (n - 75) with 0 by lia. change ((0 + 74) / 75) with 0.
    symmetry. apply Nat.div_unique with (r := n - 1); lia.
  - replace (n + 74) with ((n - 75 + 74) + 1 * 75) by lia.
    rewrite Nat.div_add by lia. lia.
Qed.

Lemma batches_loop_length (fuel : nat) :
  forall i, length records <= i + fuel ->
    length (batches_loop fuel records i)
    = (length records - i + (BATCH_SIZE - 1)) / BATCH_SIZE.
Proof.
  induction fuel as [|fuel IH]; intros i Hf; simpl.
  - replace (length records - i) with 0 by lia. reflexivity.
  - destruct (decide (i < length records)) as [Hlt|Hge]; simpl.
    + rewrite IH by (pose proof BATCH_SIZE_pos; lia).
      replace (length records - (i + BATCH_SIZE))
        with (length records - i - BATCH_SIZE) by lia.
      symmetry. apply ceil_step. lia.
    + replace (length records - i) with 0 by lia. reflexivity.
Qed.

Lemma batches_loop_lookup (fuel : nat) :
  forall i k b, batches_loop fuel records i !! k = Some b ->
    b = take BATCH_SIZE (drop (i + k * BATCH_SIZE) records)
    /\ i + k * BATCH_SIZE < length records.
Proof.
  induction fuel as [|fuel IH]; intros i k b; simpl; [done|].
  destruct (decide (i < length records)) as [Hlt|Hge]; [|done].
  destruct k as [|k]; simpl.
  - intros [= <-]. rewrite slice_take_drop, Nat.add_0_r. done.
  - intros H. apply IH in H as [-> H].
    split; [f_equal; f_equal|]; unfold BATCH_SIZE in *; lia.
Qed.

(** Fuel beyond the turns the loop takes changes nothing. *)
Lemma batches_loop_fuel (fuel fuel' : nat) :
  forall i, length records <= i + fuel -> length records <= i + fuel' ->
    batches_loop fuel records i = batches_loop fuel' records i.
Proof.
  revert fuel'. induction fuel as [|fuel IH]; intros [|fuel'] i Hf Hf';
    simpl; try done.
  - destruct (decide (i < length records)); [lia|done].
  - destruct (decide (i < length records)); [lia|done].
  - destruct (decide (i < length records)); [|done].
    f_equal. pose proof BATCH_SIZE_pos. apply IH; lia.
Qed.

Lemma processRecords_loop_batches (e : env) (fuel : nat) :
  forall i, processRecords_loop e fuel records i
            = forBatches e (batches_loop fuel records i).
Proof.
  induction fuel as [|fuel IH]; intros i; simpl; [done|].
  destruct (decide (i < length records)); [|done].
  simpl. by rewrite IH.
Qed.

(** The fuel [processRecords] gives its loop is enough: more makes no
    difference. *)
Lemma processRecords_loop_fuel (e : env) (fuel : nat) :
  length records <= fuel ->
  processRecords_loop e fuel records 0
  = processRecords_loop e (length records) records 0.
Proof.
  intros Hf. rewrite !processRecords_loop_batches.
  f_equal. apply batches_loop_fuel; lia.
Qed.

End Batching.

(** C6: the loop of [processRecords] cuts N records into ceil(N/75) slices
    of 75 records, the last one possibly shorter but never empty; slice [k]
    is [records.slice(75k, 75k + 75)], so the slices are contiguous, do not
    overlap, keep the order, and concatenate to the whole sequence; these
    slices are the batches the loop hands to [processBatch]. *)
Theorem batches_cover (records : list record) :
  BATCH_SIZE = 75
  /\ length (batches records)
     = (length records + (BATCH_SIZE - 1)) / BATCH_SIZE
  /\ concat (batches records) = records
  /\ (forall k b, batches records !! k = Some b ->
        b = slice records (k * BATCH_SIZE) (k * BATCH_SIZE + BATCH_SIZE))
  /\ (forall k b, batches records !! k = Some b ->
        S k < length (batches records) -> length b = BATCH_SIZE)
  /\ (forall b, last (batches records) = Some b ->
        0 < length b <= BATCH_SIZE)
  /\ (forall e, processRecords_loop e (length records) records 0
                = forBatches e (batches records)).
Proof.
  unfold batches. split_and!.
  - reflexivity.
  - rewrite batches_loop_length by lia. f_equal. lia.
  - rewrite batches_loop_concat by lia. apply drop_0.
  - intros k b Hk. apply batches_loop_lookup in Hk as [-> _].
    by rewrite slice_take_drop.
  - intros k b Hk Hlt.
    apply lookup_lt_is_Some in Hlt as [b' Hb'].
    apply batches_loop_lookup in Hk as [-> _].
    apply batches_loop_lookup in Hb' as [_ Hb'].
    rewrite length_take, length_drop. unfold BATCH_SIZE in *. lia.
  - intros b Hb. rewrite last_lookup in Hb.
    apply batches_loop_lookup in Hb as [-> Hb].
    rewrite length_take, length_drop. unfold BATCH_SIZE in *. lia.
  - intros e. apply processRecords_loop_batches.
Qed.

(** ** The merge loop *)

Lemma base_setFields card o : base (setFields card o) = base o.
Proof. reflexivity. Qed.

Lemma base_setImages im o : base (setImages im o) = base o.
Proof. reflexivity. Qed.

Lemma lineValue_base o o' : base o = base o' -> lineValue o = lineValue o'.
Proof. unfold base, lineValue. intros [= _ -> _ _ ->]. reflexivity. Qed.

Lemma lineValue_fmap_base (l l' : list record) :
  base <$> l = base <$> l' -> lineValue <$> l = lineValue <$> l'.
Proof.
  revert l'. induction l as [|a l IH]; intros [|a' l']; try done.
  rewrite !fmap_cons. intros H.
  assert (Ha : base a = base a') by congruence.
  assert (Hl : base <$> l = base <$> l') by congruence.
  by rewrite (lineValue_base _ _ Ha), (IH _ Hl).
Qed.

Lemma fmap_through_base {B} (g : record -> B) (l l' : list record) :
  (forall o o', base o = base o' -> g o = g o') ->
  base <$> l = base <$> l' -> g <$> l = g <$> l'.
Proof.
  intros Hg. revert l'. induction l as [|a l IH]; intros [|a' l']; try done.
  rewrite !fmap_cons. intros H.
  assert (Ha : base a = base a') by congruence.
  assert (Hl : base <$> l = base <$> l') by congruence.
  by rewrite (Hg _ _ Ha), (IH _ Hl).
Qed.

Lemma is_enriched_fields o : is_enriched o = true -> has_all_fields o.
Proof.
  unfold is_enriched, has_all_fields. rewrite !andb_true_iff.
  rewrite !bool_decide_eq_true. intros (((((? & ?) & ?) & ?) & ?) & [im ?]).
  split_and!; try done. by exists im.
Qed.

Lemma scryfallId_base o o' :
  base o = base o' -> scryfallId o = scryfallId o'.
Proof. unfold base. by intros [= _ _ _ -> _]. Qed.

Lemma is_enriched_merged card im o :
  is_enriched (setImages im (setFields card o)) = true.
Proof. reflexivity. Qed.

Lemma find_Some os cid i o :
  find os cid = Some (i, o) <->
  os !! i = Some o /\ scryfallId o = Some cid
  /\ forall j o', os !! j = Some o' -> j < i -> scryfallId o' <> Some cid.
Proof. unfold find. by rewrite list_find_Some. Qed.

(** [find] looks at [scryfallId] only, which the merge never assigns. *)
Lemma find_base os os' cid i o :
  base <$> os' = base <$> os ->
  find os cid = Some (i, o) ->
  exists o', find os' cid = Some (i, o') /\ base o' = base o.
Proof.
  intros Hb (Hi & Hid & Hfirst)%find_Some.
  assert (Hl : forall j, base <$> (os' !! j) = base <$> (os !! j)).
  { intros j. by rewrite <- !list_lookup_fmap, Hb. }
  pose proof (Hl i) as Hli. rewrite Hi in Hli. simpl in Hli.
  destruct (os' !! i) as [o'|] eqn:Ho'; simpl in Hli; [|done].
  assert (Hbo : base o' = base o) by congruence.
  exists o'. split; [|done].
  apply find_Some. split_and!; [done|..].
  - by rewrite (scryfallId_base _ _ Hbo).
  - intros j oj Hj Hlt. pose proof (Hl j) as Hlj. rewrite Hj in Hlj.
    destruct (os !! j) as [oj'|] eqn:Hoj; simpl in Hlj; [|done].
    assert (Hbj : base oj = base oj') by congruence.
    rewrite (scryfallId_base _ _ Hbj). by eapply Hfirst.
Qed.

Lemma find_base_None os os' cid :
  base <$> os' = base <$> os -> find os cid = None -> find os' cid = None.
Proof.
  intros Hb Hn. destruct (find os' cid) as [[i o']|] eqn:E; [|done].
  destruct (find_base os' os cid i o' (eq_sym Hb) E) as (o & Ho & _).
  congruence.
Qed.

Lemma targets_cons os card data :
  targets os (card :: data)
  = match find os (card_id card) with
    | Some (i, _) => i :: targets os data
    | None => targets os data
    end.
Proof.
  unfold targets. simpl. by destruct (find os (card_id card)) as [[]|].
Qed.

Lemma matched_cons os card data :
  matched os (card :: data)
  = match find os (card_id card) with
    | Some (_, o) => o :: matched os data
    | None => matched os data
    end.
Proof.
  unfold matched. simpl. by destruct (find os (card_id card)) as [[]|].
Qed.

Lemma targets_base os os' data :
  base <$> os' = base <$> os -> targets os' data = targets os data.
Proof.
  intros Hb. induction data as [|card data IH]; [done|].
  rewrite !targets_cons, IH.
  destruct (find os (card_id card)) as [[i o]|] eqn:E.
  - destruct (find_base _ _ _ _ _ Hb E) as (o' & -> & _). done.
  - by rewrite (find_base_None _ _ _ Hb E).
Qed.

Lemma matched_base os os' data :
  base <$> os' = base <$> os ->
  base <$> matched os' data = base <$> matched os data.
Proof.
  intros Hb. induction data as [|card data IH]; [done|].
  rewrite !matched_cons.
  destruct (find os (card_id card)) as [[i o]|] eqn:E.
  - destruct (find_base _ _ _ _ _ Hb E) as (o' & -> & Ho').
    rewrite !fmap_cons. by rewrite IH, Ho'.
  - by rewrite (find_base_None _ _ _ Hb E).
Qed.

Lemma same_store_refl w : same_store w w.
Proof. by unfold same_store. Qed.

Lemma same_store_trans w1 w2 w3 :
  same_store w1 w2 -> same_store w2 w3 -> same_store w1 w3.
Proof. unfold same_store. intuition congruence. Qed.

(** One turn of the loop. *)
Lemma mergeCard_cases card b w :
  match mergeCard card b w with
  | Returned b' w' =>
      exists i o im,
        find (objs b) (card_id card) = Some (i, o)
        /\ imageSet card = Some im
        /\ objs b' = <[i := setImages im (setFields card o)]> (objs b)
        /\ cards b' = cards b ++ [i]
        /\ totalPrice w' = PrimFloat.add (totalPrice w) (lineValue o)
        /\ same_store w w'
  | Thrown w' =>
      same_store w w'
      /\ (find (objs b) (card_id card) = None \/ imageSet card = None)
  | Exited _ _ => False
  end.
Proof.
  unfold mergeCard.
  destruct (find (objs b) (card_id card)) as [[i o]|] eqn:Hf.
  - unfold_M. unfold addTotalPrice. unfold_M.
    destruct (imageSet card) as [im|] eqn:Him; simpl.
    + exists i, o, im. split_and!; try done.
    + split; [done|by right].
  - unfold_M. split; [apply same_store_refl|by left].
Qed.

Lemma cards_enriched_step card b i o im :
  objs b !! i = Some o ->
  cards_enriched b ->
  cards_enriched
    {| objs := <[i := setImages im (setFields card o)]> (objs b);
       cards := cards b ++ [i] |}.
Proof.
  intros Hi Hb. pose proof (lookup_lt_Some _ _ _ Hi) as Hlt.
  unfold cards_enriched in *. simpl. apply Forall_app. split.
  - eapply Forall_impl; [exact Hb|]. intros j (oj & Hj & He).
    destruct (decide (j = i)) as [->|Hne].
    + eexists. rewrite list_lookup_insert_eq by done. split; [done|].
      apply is_enriched_merged.
    + exists oj. by rewrite list_lookup_insert_ne.
  - apply Forall_singleton. eexists.
    rewrite list_lookup_insert_eq by done. split; [done|].
    apply is_enriched_merged.
Qed.

(** The whole loop: which objects the entries of [cards] refer to, what
    is added to [totalPrice], and what stays as it was. *)
Lemma mergeCards_cases data :
  forall b w,
    match mergeCards data b w with
    | Returned b' w' =>
        base <$> objs b' = base <$> objs b
        /\ cards b' = cards b ++ targets (objs b) data
        /\ length (targets (objs b) data) = length data
        /\ totalPrice w'
            = fold_left PrimFloat.add
                (lineValue <$> matched (objs b) data) (totalPrice w)
        /\ same_store w w'
        /\ (cards_enriched b -> cards_enriched b')
    | Thrown w' =>
        same_store w w'
        /\ Exists (fun card => find (objs b) (card_id card) = None
                               \/ imageSet card = None) data
    | Exited _ _ => False
    end.
Proof.
  induction data as [|card data IH]; intros b w.
  - simpl. unfold_M. split_and!; try done.
    by rewrite app_nil_r.
  - change (mergeCards (card :: data) b w)
      with (bind (mergeCard card b) (mergeCards data) w).
    unfold bind. pose proof (mergeCard_cases card b w) as Hstep.
    destruct (mergeCard card b w) as [b1 w1|w1|c w1];
      [|split; [tauto|apply Exists_cons_hd; tauto]|done].
    destruct Hstep as (i & o & im & Hf & Him & Hobjs & Hcards & Htot & Hst).
    destruct (proj1 (find_Some _ _ _ _) Hf) as (Hi & _).
    assert (Hb1 : base <$> objs b1 = base <$> objs b).
    { rewrite Hobjs, list_fmap_insert. apply list_insert_id.
      by rewrite list_lookup_fmap, Hi. }
    specialize (IH b1 w1).
    destruct (mergeCards data b1 w1) as [b' w'|w'|c w']; [| |done].
    + destruct IH as (Hb' & Hc' & Hlen & Htot' & Hst' & Hen).
      rewrite targets_cons, matched_cons, Hf.
      rewrite (targets_base _ _ _ Hb1) in Hc', Hlen.
      split_and!.
      * congruence.
      * rewrite Hc', Hcards, <- app_assoc. done.
      * simpl. by rewrite Hlen.
      * rewrite Htot', Htot, fmap_cons. simpl. f_equal.
        apply lineValue_fmap_base, matched_base, Hb1.
      * by eapply same_store_trans.
      * intros Hen0. apply Hen. 
        replace b1 with {| objs := objs b1; cards := cards b1 |}
          by (by destruct b1).
        rewrite Hobjs, Hcards. by apply cards_enriched_step.
    + destruct IH as (Hst' & Hex). split; [by eapply same_store_trans|].
      apply Exists_cons_tl. eapply Exists_impl; [exact Hex|].
      intros c [Hn|Hn]; [left|by right].
      by apply (find_base_None (objs b1) (objs b)).
Qed.

Lemma matched_length os data :
  length (matched os data) = length (targets os data).
Proof.
  induction data as [|card data IH]; [done|].
  rewrite matched_cons, targets_cons.
  destruct (find os (card_id card)) as [[i o]|]; simpl; by rewrite ?IH.
Qed.

Lemma targets_length_le os data : length (targets os data) <= length data.
Proof.
  induction data as [|card data IH]; [done|].
  rewrite targets_cons.
  destruct (find os (card_id card)) as [[i o]|]; simpl; lia.
Qed.

(** When every card object found its record, the matched records carry
    the identifiers of the response, in its order. *)
Lemma matched_ids os data :
  length (targets os data) = length data ->
  scryfallId <$> matched os data = (fun card => Some (card_id card)) <$> data.
Proof.
  induction data as [|card data IH]; [done|].
  rewrite matched_cons, targets_cons.
  destruct (find os (card_id card)) as [[i o]|] eqn:Hf.
  - intros [= Hlen]. destruct (proj1 (find_Some _ _ _ _) Hf) as (_ & Hid & _).
    by rewrite !fmap_cons, IH, Hid.
  - simpl. intros Hlen. pose proof (targets_length_le os data). lia.
Qed.

Lemma targets_first_match os data :
  length (targets os data) = length data ->
  Forall2 (first_match os) data (targets os data).
Proof.
  induction data as [|card data IH]; [constructor|].
  rewrite targets_cons.
  destruct (find os (card_id card)) as [[i o]|] eqn:Hf.
  - intros [= Hlen]. constructor; [|by apply IH].
    exists o. by apply find_Some.
  - simpl. intros Hlen. pose proof (targets_length_le os data). lia.
Qed.

(** Reading the references through the final objects gives the matched
    records, up to the fields the merge assigned. *)
Lemma documents_base os os' data :
  base <$> os' = base <$> os ->
  base <$> omap (fun i => os' !! i) (targets os data)
  = base <$> matched os data.
Proof.
  intros Hb. induction data as [|card data IH]; [done|].
  rewrite matched_cons, targets_cons.
  destruct (find os (card_id card)) as [[i o]|] eqn:Hf; [|done].
  destruct (find_base _ _ _ _ _ Hb Hf) as (o' & Hf' & Ho').
  destruct (proj1 (find_Some _ _ _ _) Hf') as (Hi' & _).
  change (omap (fun i => os' !! i) (i :: targets os data))
    with (match os' !! i with
          | Some y => y :: omap (fun i => os' !! i) (targets os data)
          | None => omap (fun i => os' !! i) (targets os data)
          end).
  rewrite Hi', !fmap_cons. by rewrite IH, Ho'.
Qed.

Lemma documents_enriched b :
  cards_enriched b -> Forall (fun o => is_enriched o = true) (documents b).
Proof.
  unfold cards_enriched, documents. generalize (cards b).
  induction l as [|i l IH]; intros Hl; simpl; [done|].
  apply Forall_cons in Hl as [(o & -> & He) Hl]. auto.
Qed.

(** What a call of [processBatch] does. *)
Lemma processBatch_cases e records w :
  match processBatch e records w with
  | Returned n w' =>
      exists data docs,
        scryfall e (length (requests w)) (identifiers records) = Some data
        /\ n = length records
        /\ requests w' = requests w ++ [identifiers records]
        /\ magicCards w' = magicCards w ++ docs
        /\ insertMany_ok e docs = true
        /\ base <$> docs = base <$> matched records data
        /\ length (matched records data) = length data
        /\ Forall (fun o => is_enriched o = true) docs
        /\ totalPrice w'
            = fold_left PrimFloat.add
                (lineValue <$> matched records data) (totalPrice w)
        /\ db w' = db w /\ connected w' = connected w
        /\ magicCollection w' = magicCollection w
        /\ totalCards w' = totalCards w
  | Thrown _ => False
  | Exited c w' =>
      c = 1%Z
      /\ (db w = true -> connected w' = false)
      /\ magicCards w' = magicCards w
      /\ magicCollection w' = magicCollection w
      /\ requests w' = requests w ++ [identifiers records]
      /\ totalCards w' = totalCards w
  end.
Proof.
  unfold processBatch, try_catch. unfold_M. unfold post.
  destruct (scryfall e (length (requests w)) (identifiers records))
    as [data|] eqn:Hsrv.
  - match goal with |- context [mergeCards data ?b0 ?w0] =>
      pose proof (mergeCards_cases data b0 w0) as Hm;
      destruct (mergeCards data b0 w0) as [b' w1|w1|c w1] end; [| |done].
    + simpl in Hm.
      destruct Hm as (Hb & Hc & Hlen & Htot & Hst & Hen).
      unfold saveCards.
      destruct (insertMany_ok e (documents b')) eqn:Hins; simpl.
      * exists data, (documents b').
        destruct Hst as (? & ? & ? & ? & ? & ?). simpl in *.
        split_and!; try done; try congruence.
        -- unfold documents. rewrite Hc. by apply documents_base.
        -- by rewrite matched_length.
        -- apply documents_enriched, Hen. constructor.
      * unfold exit. destruct Hst as (? & ? & ? & ? & ? & ?). simpl in *.
        destruct (db w1) eqn:Hdb; simpl; split_and!; try done; congruence.
    + unfold exit. destruct Hm as ((? & ? & ? & ? & ? & ?) & _).
      simpl in *.
      destruct (db w1) eqn:Hdb; simpl; split_and!; try done; congruence.
  - unfold exit. simpl. destruct (db w) eqn:Hdb; simpl; split_and!; done.
Qed.

Lemma elem_of_matched os data m :
  m ∈ matched os data <->
  exists card i, card ∈ data /\ find os (card_id card) = Some (i, m).
Proof.
  unfold matched. rewrite list_elem_of_omap. split.
  - intros (card & Hc & Hm).
    destruct (find os (card_id card)) as [[i o]|] eqn:Hf; [|done].
    simpl in Hm. injection Hm as ->. by exists card, i.
  - intros (card & i & Hc & Hf). exists card. by rewrite Hf.
Qed.

Lemma find_is_Some os cid r :
  r ∈ os -> scryfallId r = Some cid -> is_Some (find os cid).
Proof. intros Hr Hid. unfold find. by eapply list_find_elem_of. Qed.

Lemma NoDup_fmap_elem {A B} (f : A -> B) (l : list A) x y :
  NoDup (f <$> l) -> x ∈ l -> y ∈ l -> f x = f y -> x = y.
Proof.
  induction l as [|a l IH]; [by intros _ ?%elem_of_nil|].
  rewrite fmap_cons, NoDup_cons.
  intros [Ha Hl] [->|Hx]%elem_of_cons [->|Hy]%elem_of_cons Hxy; auto.
  - exfalso. apply Ha. rewrite Hxy. by apply list_elem_of_fmap_2.
  - exfalso. apply Ha. rewrite <- Hxy. by apply list_elem_of_fmap_2.
Qed.

(** [processBatch] returns when the service answers, every card object of
    the answer has a record in the batch and images to read, and the store
    takes the documents. *)
Lemma processBatch_succeeds e records w data :
  scryfall e (length (requests w)) (identifiers records) = Some data ->
  (forall card, card ∈ data ->
     is_Some (find records (card_id card)) /\ is_Some (imageSet card)) ->
  (forall docs, Forall (fun o => is_enriched o = true) docs ->
     insertMany_ok e docs = true) ->
  exists w', processBatch e records w = Returned (length records) w'.
Proof.
  intros Hsrv Hdata Hstore.
  unfold processBatch, try_catch. unfold_M. unfold post. rewrite Hsrv.
  match goal with |- context [mergeCards data ?b0 ?w0] =>
    pose proof (mergeCards_cases data b0 w0) as Hm;
    destruct (mergeCards data b0 w0) as [b' w1|w1|c w1] end; [| |done].
  - destruct Hm as (_ & _ & _ & _ & _ & Hen). unfold saveCards.
    rewrite Hstore; [by eexists|].
    apply documents_enriched, Hen. constructor.
  - exfalso. destruct Hm as (_ & Hex). apply Exists_exists in Hex.
    destruct Hex as (card & Hc & Hbad). destruct (Hdata card Hc) as [Hf Hi].
    simpl in Hbad. destruct Hbad as [Hbad|Hbad]; rewrite Hbad in *;
      by eapply is_Some_None.
Qed.


(** ** The driver *)

Section Driver.

Variable e : env.

Lemma calls_ok_snoc w w' req data :
  calls_ok e w ->
  requests w' = requests w ++ [req] ->
  scryfall e (length (requests w)) req = Some data ->
  calls_ok e w'.
Proof.
  intros Hok Hreq Hsrv j r. rewrite Hreq.
  intros [Hj|[Hj Hr]]%lookup_app_Some.
  - by apply Hok.
  - destruct (j - length (requests w)) as [|m] eqn:E; [|done].
    simpl in Hr. injection Hr as <-.
    replace j with (length (requests w)) by lia. by rewrite Hsrv.
Qed.

(** The loop over the batches: either every batch was processed, or the
    process has exited with status 1 at the first batch that failed. *)
Lemma forBatches_cases bs :
  forall w,
    match forBatches e bs w with
    | Returned _ w' =>
        totalCards w' = totalCards w + length (concat bs)
        /\ requests w' = requests w ++ (identifiers <$> bs)
        /\ (calls_ok e w -> calls_ok e w')
        /\ db w' = db w /\ connected w' = connected w
        /\ magicCollection w' = magicCollection w
        /\ exists docs, magicCards w' = magicCards w ++ docs
                        /\ Forall (fun o => is_enriched o = true) docs
    | Thrown _ => False
    | Exited c w' =>
        c = 1%Z
        /\ (db w = true -> connected w' = false)
        /\ magicCollection w' = magicCollection w
        /\ (exists k, k < length bs
               /\ requests w'
                  = requests w ++ (identifiers <$> take (S k) bs))
        /\ (exists docs, magicCards w' = magicCards w ++ docs
                         /\ Forall (fun o => is_enriched o = true) docs)
        /\ (forall req,
              requests w' !! length (requests w) = Some req ->
              scryfall e (length (requests w)) req = None ->
              magicCards w' = magicCards w)
    end.
Proof.
  induction bs as [|b bs IH]; intros w.
  - simpl. unfold_M. split_and!; try done.
    + by rewrite app_nil_r.
    + exists []. by rewrite app_nil_r.
  - change (forBatches e (b :: bs) w)
      with (bind (processBatch e b)
              (fun n => bind (addTotalCards n) (fun _ => forBatches e bs)) w).
    unfold bind at 1. pose proof (processBatch_cases e b w) as Hb.
    destruct (processBatch e b w) as [n w1|w1|c w1]; [|done|].
    + destruct Hb as (data & docs & Hsrv & -> & Hreq & Hcards & _ & _ & _
                      & Hen & _ & Hdb & Hconn & Hcoll & Htc).
      unfold bind, addTotalCards, modify.
      match goal with |- context [forBatches e bs ?w0] =>
        specialize (IH w0); destruct (forBatches e bs w0) as [[] w'|w'|c w']
      end; [|done|]; simpl in IH.
      * destruct IH as (Htc' & Hreq' & Hok' & Hdb' & Hconn' & Hcoll'
                        & docs' & Hcards' & Hen').
        split_and!; try congruence.
        -- rewrite Htc', Htc. simpl. rewrite length_app. lia.
        -- rewrite Hreq', Hreq, fmap_cons, <- app_assoc. done.
        -- intros Hok. apply Hok'. intros j r. simpl.
           apply (calls_ok_snoc w w1 _ data Hok Hreq Hsrv).
        -- exists (docs ++ docs'). rewrite Hcards', Hcards, app_assoc.
           split; [done|]. by apply Forall_app.
      * destruct IH as (-> & Hconn' & Hcoll' & (k & Hk & Hreq')
                        & (docs' & Hcards' & Hen') & _).
        split_and!; try congruence.
        -- intros Hd. apply Hconn'. congruence.
        -- exists (S k). split; [simpl; lia|].
           rewrite Hreq', Hreq. rewrite <- app_assoc. done.
        -- exists (docs ++ docs'). rewrite Hcards', Hcards, app_assoc.
           split; [done|]. by apply Forall_app.
        -- intros req Hl Hnone. exfalso.
           rewrite Hreq', Hreq, <- app_assoc in Hl.
           rewrite lookup_app_r in Hl by lia.
           rewrite Nat.sub_diag in Hl. simpl in Hl. congruence.
    + destruct Hb as (-> & Hconn & Hcards & Hcoll & Hreq & Htc).
      split_and!; try done.
      * exists 0. split; [simpl; lia|]. by rewrite Hreq.
      * exists []. split; [by rewrite app_nil_r|done].
Qed.

Lemma readCsv_length rows : length (readCsv rows) = length rows.
Proof. induction rows; simpl; congruence. Qed.

Lemma readCsv_lookup rows k :
  readCsv rows !! k = readRow <$> rows !! k.
Proof.
  revert k. induction rows as [|row rows IH]; intros [|k]; simpl; auto.
Qed.

Lemma batches_concat records : concat (batches records) = records.
Proof. unfold batches. rewrite batches_loop_concat by lia. apply drop_0. Qed.

(** A whole run, from a fresh process: it completes with status 0 and one
    summary document, or it exits with status 1 and none. *)
Lemma run_cases rows cards0 coll0 :
  forall code w',
    run e rows (boot cards0 coll0) = (code, w') ->
    let bs := batches (readCsv rows) in
    connected w' = false
    /\ Forall (fun o => is_enriched o = true) (magicCards w')
    /\ ((code = 0%Z
         /\ totalCards w' = length rows
         /\ requests w' = identifiers <$> bs
         /\ calls_ok e w'
         /\ magicCollection w'
            = [{| value := totalPrice w'; total := totalCards w';
                  updated := now e |}])
        \/ (code = 1%Z
            /\ magicCollection w' = []
            /\ (exists k, k < length bs
                   /\ requests w' = identifiers <$> take (S k) bs)
            /\ (forall req, requests w' !! 0 = Some req ->
                   scryfall e 0 req = None -> magicCards w' = []))).
Proof.
  intros code w'. unfold run, main, try_catch, processRecords.
  unfold_M. unfold connectToDb, modify.
  rewrite processRecords_loop_batches. fold (batches (readCsv rows)).
  match goal with |- context [forBatches e _ ?w0] =>
    pose proof (forBatches_cases (batches (readCsv rows)) w0) as H;
    destruct (forBatches e (batches (readCsv rows)) w0) as [[] w1|w1|c w1]
      eqn:Hfb
  end; [|done|]; simpl in H.
  - destruct H as (Htc & Hreq & Hok & Hdb & Hconn & Hcoll & docs & Hc & Hen).
    assert (Hcalls : calls_ok e w1).
    { apply Hok. intros j req. simpl. by rewrite lookup_nil. }
    unfold saveCollection.
    destruct (PrimFloat.is_nan (totalPrice w1)) eqn:Hnan.
    + unfold exit. rewrite Hdb. intros [= <- <-]. simpl.
      split_and!; [done|by rewrite Hc|].
      right. split_and!; try done.
      * destruct (batches (readCsv rows)) as [|b bs] eqn:Hbs.
        -- simpl in Hfb. unfold_M. injection Hfb as <-. simpl in Hnan.
           vm_compute in Hnan. discriminate.
        -- exists (length bs). split; [simpl; lia|].
           rewrite Hreq. by rewrite take_ge by (simpl; lia).
      * intros req Hr Hn. destruct (Hcalls 0 req Hr) as [data Hd]. congruence.
    + simpl. rewrite Hdb. simpl.
      intros [= <- <-]. simpl. split_and!; [done|by rewrite Hc|].
      left. split_and!; try done.
      * by rewrite Htc, batches_concat, readCsv_length.
      * by rewrite Hcoll.
  - destruct H as (-> & Hconn & Hcoll & Hk & (docs & Hc & Hen) & Hfirst).
    intros [= <- <-]. split_and!; [by apply Hconn|by rewrite Hc|].
    right. by split_and!.
Qed.

End Driver.

(** ** The documents of a batch, and the run as its loop *)

(** [mergeCards] returns only for a response that is well formed. *)
Lemma mergeCards_Returned_well_formed (data : list scryfall_card) :
  forall b w b' w',
    mergeCards data b w = Returned b' w' -> well_formed (objs b) data.
Proof.
  induction data as [|card data IH]; intros b w b' w' H.
  - intros card Hc. by apply elem_of_nil in Hc.
  - change (mergeCards (card :: data) b w)
      with (bind (mergeCard card b) (mergeCards data) w) in H.
    unfold bind in H. pose proof (mergeCard_cases card b w) as Hstep.
    destruct (mergeCard card b w) as [b1 w1|w1|c w1]; [|done|done].
    destruct Hstep as (i & o & im & Hf & Him & Hobjs & _).
    destruct (proj1 (find_Some _ _ _ _) Hf) as (Hi & _).
    assert (Hb1 : base <$> objs b1 = base <$> objs b).
    { rewrite Hobjs, list_fmap_insert. apply list_insert_id.
      by rewrite list_lookup_fmap, Hi. }
    intros card' [->|Hc]%elem_of_cons.
    + rewrite Hf, Him. by split.
    + destruct (IH _ _ _ _ H card' Hc) as [[[i' o'] Hf'] Him'].
      split; [|done].
      destruct (find_base _ _ _ _ _ (eq_sym Hb1) Hf') as (o'' & -> & _).
      done.
Qed.

Lemma find_fst_base os os' cid :
  base <$> os' = base <$> os ->
  fst <$> find os' cid = fst <$> find os cid.
Proof.
  intros Hb. destruct (find os cid) as [[i o]|] eqn:Hf.
  - by destruct (find_base _ _ _ _ _ Hb Hf) as (o' & -> & _).
  - by rewrite (find_base_None _ _ _ Hb Hf).
Qed.

Lemma merged_overwrites card card' o :
  is_Some (imageSet card) -> merged card (merged card' o) = merged card o.
Proof.
  intros [im Him]. unfold merged. rewrite Him.
  by destruct (imageSet card').
Qed.

(** The objects of a batch after the loop: each carries the last card
    object of the response that was merged onto it, or is as it was. *)
Lemma mergeCards_objs (data : list scryfall_card) :
  forall b w b' w',
    mergeCards data b w = Returned b' w' ->
    forall i o,
      objs b !! i = Some o ->
      objs b' !! i
      = Some match last (filter (fun c => fst <$> find (objs b) (card_id c)
                                          = Some i) data) with
             | Some card => merged card o
             | None => o
             end.
Proof.
  induction data as [|card data IH]; intros b w b' w' H i o Hi.
  - simpl in H. injection H as <- _. done.
  - change (mergeCards (card :: data) b w)
      with (bind (mergeCard card b) (mergeCards data) w) in H.
    unfold bind in H. pose proof (mergeCard_cases card b w) as Hstep.
    destruct (mergeCard card b w) as [b1 w1|w1|c w1]; [|done|done].
    destruct Hstep as (i0 & o0 & im & Hf & Him & Hobjs & _).
    destruct (proj1 (find_Some _ _ _ _) Hf) as (Hi0 & _).
    assert (Hb1 : base <$> objs b1 = base <$> objs b).
    { rewrite Hobjs, list_fmap_insert. apply list_insert_id.
      by rewrite list_lookup_fmap, Hi0. }
    pose proof (mergeCards_Returned_well_formed _ _ _ _ _ H) as Hwf.
    specialize (IH _ _ _ _ H i).
    rewrite (list_filter_iff
               (fun c => fst <$> find (objs b1) (card_id c) = Some i)
               (fun c => fst <$> find (objs b) (card_id c) = Some i)) in IH
      by (intros c; by rewrite (find_fst_base _ _ _ Hb1)).
    destruct (decide (i = i0)) as [->|Hne].
    + assert (o0 = o) as -> by congruence.
      rewrite filter_cons_True by (by rewrite Hf).
      rewrite last_cons.
      rewrite (IH (setImages im (setFields card o)))
        by (rewrite Hobjs; apply list_lookup_insert_eq;
            by eapply lookup_lt_Some).
      destruct (last _) as [card'|] eqn:Hl.
      * f_equal. change (setImages im (setFields card o))
          with (match Some im with
                | Some im => setImages im (setFields card o)
                | None => o
                end).
        rewrite <- Him. apply merged_overwrites.
        apply last_Some_elem_of in Hl.
        apply list_elem_of_filter in Hl as [_ Hl].
        by destruct (Hwf card' Hl).
      * unfold merged. by rewrite Him.
    + rewrite filter_cons_False by (rewrite Hf; simpl; congruence).
      apply IH. rewrite Hobjs. by rewrite list_lookup_insert_ne.
Qed.

Lemma omap_lookup {A B} (f : A -> option B) (l : list A) (k : nat) :
  Forall (fun x => is_Some (f x)) l ->
  omap f l !! k = l !! k ≫= f.
Proof.
  revert k. induction l as [|x l IH]; intros k Hl; [done|].
  apply Forall_cons in Hl as [[y Hy] Hl].
  change (omap f (x :: l))
    with (match f x with Some y => y :: omap f l | None => omap f l end).
  rewrite Hy. destruct k as [|k]; simpl; [done|]. by apply IH.
Qed.

Lemma targets_lookup os data k card :
  length (targets os data) = length data ->
  data !! k = Some card ->
  exists i o,
    find os (card_id card) = Some (i, o) /\ targets os data !! k = Some i.
Proof.
  intros Hlen Hk.
  destruct (Forall2_lookup_l _ _ _ _ _ (targets_first_match os data Hlen) Hk)
    as (i & Hi & o & Ho & Hid & Hfirst).
  exists i, o. split; [|done]. by apply find_Some.
Qed.

Lemma same_id_filter os (data : list scryfall_card) cid i o :
  find os cid = Some (i, o) ->
  filter (fun c => fst <$> find os (card_id c) = Some i) data
  = filter (fun c => card_id c = cid) data.
Proof.
  intros Hf. destruct (proj1 (find_Some _ _ _ _) Hf) as (Hi & Hid & _).
  apply list_filter_iff. intros c. split.
  - destruct (find os (card_id c)) as [[i' o']|] eqn:Hf'; [|done].
    simpl. intros [= ->].
    destruct (proj1 (find_Some _ _ _ _) Hf') as (Hi' & Hid' & _).
    congruence.
  - intros ->. by rewrite Hf.
Qed.

(** The document at place [k], for a loop that returned. *)
Lemma documents_lookup
  (data : list scryfall_card) (records : list record)
  (w : world) (b' : batch_state) (w' : world) (k : nat)
  (card : scryfall_card) :
  mergeCards data {| objs := records; cards := [] |} w = Returned b' w' ->
  data !! k = Some card ->
  exists i r card',
    find records (card_id card) = Some (i, r)
    /\ last (filter (fun c => card_id c = card_id card) data) = Some card'
    /\ is_Some (imageSet card')
    /\ documents b' !! k = Some (merged card' r).
Proof.
  intros H Hk.
  pose proof (mergeCards_cases data {| objs := records; cards := [] |} w)
    as Hc.
  rewrite H in Hc. simpl in Hc.
  destruct Hc as (Hbase & Hcards & Hlen & _ & _ & Hen).
  pose proof (mergeCards_Returned_well_formed _ _ _ _ _ H) as Hwf.
  pose proof (mergeCards_objs _ _ _ _ _ H) as Hobjs. simpl in Hobjs.
  specialize (Hen (Forall_nil_2 _)).
  assert (Hvalid : Forall (fun i => is_Some (objs b' !! i)) (cards b')).
  { eapply Forall_impl; [exact Hen|]. intros i (o & -> & _). by eexists. }
  destruct (targets_lookup records data k card Hlen Hk) as (i & r & Hf & Hi).
  destruct (proj1 (find_Some _ _ _ _) Hf) as (Hri & _).
  pose proof (Hobjs i r Hri) as Ho.
  rewrite (same_id_filter _ _ _ _ _ Hf) in Ho.
  assert (Hin : card ∈ filter (fun c => card_id c = card_id card) data).
  { apply list_elem_of_filter. split; [done|].
    by eapply list_elem_of_lookup_2. }
  destruct (last (filter (fun c => card_id c = card_id card) data))
    as [card'|] eqn:Hl.
  2: { apply last_None in Hl. rewrite Hl in Hin.
       by apply elem_of_nil in Hin. }
  exists i, r, card'. split_and!; try done.
  - apply last_Some_elem_of, list_elem_of_filter in Hl as [_ Hl].
    by destruct (Hwf card' Hl).
  - unfold documents. rewrite omap_lookup by done.
    rewrite Hcards. simpl. rewrite Hi. simpl. exact Ho.
Qed.

Lemma doc_for_is_Some (records : list record) (data : list scryfall_card)
  (card : scryfall_card) :
  well_formed records data -> card ∈ data ->
  exists i r card',
    find records (card_id card) = Some (i, r)
    /\ last (filter (fun c => card_id c = card_id card) data) = Some card'
    /\ card' ∈ data
    /\ card_id card' = card_id card
    /\ is_Some (imageSet card')
    /\ doc_for records data card = Some (merged card' r).
Proof.
  intros Hwf Hc. destruct (Hwf card Hc) as [[[i r] Hf] _].
  assert (Hin : card ∈ filter (fun c => card_id c = card_id card) data)
    by (by apply list_elem_of_filter).
  destruct (last (filter (fun c => card_id c = card_id card) data))
    as [card'|] eqn:Hl.
  2: { apply last_None in Hl. rewrite Hl in Hin.
       by apply elem_of_nil in Hin. }
  pose proof Hl as Hl'.
  apply last_Some_elem_of, list_elem_of_filter in Hl' as [Hid Hl'].
  exists i, r, card'. split_and!; try done.
  - by destruct (Hwf card' Hl').
  - unfold doc_for. by rewrite Hf, Hl.
Qed.

(** What [processBatch] hands to [insertMany]. *)
Lemma documents_eq
  (data : list scryfall_card) (records : list record)
  (w : world) (b' : batch_state) (w' : world) :
  mergeCards data {| objs := records; cards := [] |} w = Returned b' w' ->
  documents b' = batch_documents records data.
Proof.
  intros H. pose proof (mergeCards_Returned_well_formed _ _ _ _ _ H) as Hwf.
  simpl in Hwf. apply list_eq. intros k. unfold batch_documents.
  rewrite omap_lookup.
  2: { apply Forall_forall. intros card Hc.
       destruct (doc_for_is_Some _ _ _ Hwf Hc)
         as (i & r & card' & _ & _ & _ & _ & _ & ->). by eexists. }
  destruct (data !! k) as [card|] eqn:Hk; simpl.
  - destruct (documents_lookup _ _ _ _ _ _ _ H Hk)
      as (i & r & card' & Hf & Hl & _ & ->).
    unfold doc_for. by rewrite Hf, Hl.
  - pose proof (mergeCards_cases data {| objs := records; cards := [] |} w)
      as Hc.
    rewrite H in Hc. simpl in Hc.
    destruct Hc as (_ & Hcards & Hlen & _ & _ & Hen).
    apply lookup_ge_None. apply lookup_ge_None in Hk.
    assert (Hcl : length (cards b') = length data)
      by (rewrite Hcards; exact Hlen).
    assert (length (documents b') <= length (cards b')); [|lia].
    unfold documents. clear. induction (cards b') as [|i l IH]; [done|].
    change (omap (fun i => objs b' !! i) (i :: l))
      with (match objs b' !! i with
            | Some y => y :: omap (fun i => objs b' !! i) l
            | None => omap (fun i => objs b' !! i) l
            end).
    destruct (objs b' !! i); simpl; lia.
Qed.

(** A well-formed response whose documents the store takes: the batch is
    stored. *)
Lemma processBatch_accepts (e : env) (records : list record) (w : world)
  (data : list scryfall_card) :
  scryfall e (length (requests w)) (identifiers records) = Some data ->
  well_formed records data ->
  insertMany_ok e (batch_documents records data) = true ->
  exists w',
    processBatch e records w = Returned (length records) w'
    /\ magicCards w' = magicCards w ++ batch_documents records data.
Proof.
  intros Hsrv Hwf Hok.
  unfold processBatch, try_catch. unfold_M. unfold post. rewrite Hsrv.
  match goal with |- context [mergeCards data ?b0 ?w0] =>
    pose proof (mergeCards_cases data b0 w0) as Hm;
    destruct (mergeCards data b0 w0) as [b' w1|w1|c w1] eqn:Hrun
  end; [| |done].
  - destruct Hm as (_ & _ & _ & _ & Hst & _). unfold saveCards.
    rewrite (documents_eq _ _ _ _ _ Hrun), Hok.
    eexists. split; [reflexivity|]. simpl.
    destruct Hst as (_ & _ & -> & _). done.
  - exfalso. destruct Hm as (_ & Hex). apply Exists_exists in Hex.
    destruct Hex as (card & Hc & Hbad). destruct (Hwf card Hc) as [Hf Hi].
    simpl in Hbad. destruct Hbad as [Hbad|Hbad]; rewrite Hbad in *;
      by eapply is_Some_None.
Qed.

(** A batch that is stored: its response was well formed and the store
    took its documents. *)
Lemma processBatch_Returned_docs (e : env) (records : list record)
  (w : world) (n : nat) (w' : world) :
  processBatch e records w = Returned n w' ->
  exists data,
    scryfall e (length (requests w)) (identifiers records) = Some data
    /\ well_formed records data
    /\ insertMany_ok e (batch_documents records data) = true
    /\ magicCards w' = magicCards w ++ batch_documents records data
    /\ length (requests w') = S (length (requests w)).
Proof.
  intros H. pose proof (processBatch_cases e records w) as Hc.
  rewrite H in Hc. destruct Hc as (data & docs & Hsrv & _ & Hreq & _).
  exists data. split; [done|].
  assert (Hlen : length (requests w') = S (length (requests w)))
    by (rewrite Hreq, length_app; simpl; lia).
  revert H. unfold processBatch, try_catch. unfold_M. unfold post.
  rewrite Hsrv.
  match goal with |- context [mergeCards data ?b0 ?w0] =>
    pose proof (mergeCards_Returned_well_formed data b0 w0) as Hwf;
    pose proof (mergeCards_cases data b0 w0) as Hm;
    destruct (mergeCards data b0 w0) as [b' w1|w1|c w1] eqn:Hrun
  end; [|done|done].
  destruct Hm as (_ & _ & _ & _ & Hst & _). unfold saveCards.
  rewrite (documents_eq _ _ _ _ _ Hrun).
  destruct (insertMany_ok e (batch_documents records data)) eqn:Hok;
    [|done].
  intros [= _ <-]. simpl. destruct Hst as (_ & _ & -> & _).
  split; [exact (Hwf _ _ eq_refl)|]. by split.
Qed.

Lemma batch_documents_merged (records : list record)
  (data : list scryfall_card) :
  well_formed records data ->
  Forall2 (merged_onto_first records data) data
    (batch_documents records data).
Proof.
  intros Hwf. unfold batch_documents.
  assert (H : forall l, (forall c, c ∈ l -> c ∈ data) ->
                Forall2 (merged_onto_first records data) l
                  (omap (doc_for records data) l)).
  { induction l as [|card l IH]; intros Hl; [constructor|].
    destruct (doc_for_is_Some records data card Hwf)
      as (i & r & card' & Hf & Hlast & _ & _ & Him & Hdoc).
    { apply Hl, list_elem_of_here. }
    change (omap (doc_for records data) (card :: l))
      with (match doc_for records data card with
            | Some y => y :: omap (doc_for records data) l
            | None => omap (doc_for records data) l
            end).
    rewrite Hdoc. constructor.
    - destruct (proj1 (find_Some _ _ _ _) Hf) as (Hi & Hid & Hfirst).
      exists i, r, card'. split_and!; try done. by exists r.
    - apply IH. intros c Hc. by apply Hl, list_elem_of_further. }
  by apply H.
Qed.

Lemma merged_fields (card : scryfall_card) (r : record) :
  is_Some (imageSet card) ->
  base (merged card r) = base r
  /\ name (merged card r) = Some (card_name card)
  /\ setCode (merged card r) = Some (card_set card)
  /\ setName (merged card r) = Some (card_set_name card)
  /\ rarity (merged card r) = Some (card_rarity card)
  /\ layout (merged card r) = Some (card_layout card)
  /\ images (merged card r) = imageSet card.
Proof. intros [im Him]. unfold merged. by rewrite Him. Qed.

Lemma last_same_id (data : list scryfall_card) (card : scryfall_card) :
  NoDup (card_id <$> data) -> card ∈ data ->
  last (filter (fun c => card_id c = card_id card) data) = Some card.
Proof.
  intros Hnd Hc.
  assert (Hin : card ∈ filter (fun c => card_id c = card_id card) data)
    by (by apply list_elem_of_filter).
  destruct (last (filter (fun c => card_id c = card_id card) data))
    as [card'|] eqn:Hl.
  - f_equal.
    apply last_Some_elem_of, list_elem_of_filter in Hl as [Hid Hl].
    by apply (NoDup_fmap_elem card_id data).
  - apply last_None in Hl. rewrite Hl in Hin. by apply elem_of_nil in Hin.
Qed.

Lemma forBatches_cons_Exited (e : env) (b : list record)
  (bs : list (list record)) (w : world) (c : Z) (w' : world) :
  processBatch e b w = Exited c w' ->
  forBatches e (b :: bs) w = Exited c w'.
Proof.
  intros H.
  change (forBatches e (b :: bs) w)
    with (bind (processBatch e b)
            (fun n => bind (addTotalCards n) (fun _ => forBatches e bs)) w).
  unfold bind at 1. by rewrite H.
Qed.

Lemma forBatches_cons_Returned (e : env) (b : list record)
  (bs : list (list record)) (w : world) (n : nat) (w1 : world) :
  processBatch e b w = Returned n w1 ->
  forBatches e (b :: bs) w = forBatches e bs (counted n w1).
Proof.
  intros H.
  change (forBatches e (b :: bs) w)
    with (bind (processBatch e b)
            (fun n => bind (addTotalCards n) (fun _ => forBatches e bs)) w).
  unfold bind at 1. by rewrite H.
Qed.

Lemma forBatches_cons_inv (e : env) (b : list record)
  (bs : list (list record)) (w : world) (u : unit) (w' : world) :
  forBatches e (b :: bs) w = Returned u w' ->
  exists w1,
    processBatch e b w = Returned (length b) w1
    /\ forBatches e bs (counted (length b) w1) = Returned u w'.
Proof.
  intros H. pose proof (processBatch_cases e b w) as Hc.
  destruct (processBatch e b w) as [n w1|w1|c w1] eqn:Hb; [|done|].
  - destruct Hc as (data & docs & _ & -> & _).
    exists w1. split; [done|].
    by rewrite (forBatches_cons_Returned _ _ _ _ _ _ Hb) in H.
  - by rewrite (forBatches_cons_Exited _ _ _ _ _ _ Hb) in H.
Qed.

(** A run is its loop over the batches, started from [started], and the
    summary when the loop completes. *)
Lemma run_unfold (e : env) (rows : list (list string))
  (cards0 : list record) (coll0 : list collection_doc) :
  run e rows (boot cards0 coll0)
  = match forBatches e (batches (readCsv rows)) started with
    | Returned _ w =>
        if PrimFloat.is_nan (totalPrice w) then (1%Z, disconnect w)
        else (0%Z, finished e w)
    | Thrown w => (1%Z, disconnect w)
    | Exited c w => (c, w)
    end.
Proof.
  unfold run, main, try_catch, processRecords. unfold_M.
  unfold connectToDb, modify. rewrite processRecords_loop_batches.
  fold (batches (readCsv rows)).
  change {| db := true; connected := true; magicCards := [];
            magicCollection := [];
            totalCards := totalCards (boot cards0 coll0);
            totalPrice := totalPrice (boot cards0 coll0);
            requests := requests (boot cards0 coll0) |} with started.
  pose proof (forBatches_cases e (batches (readCsv rows)) started) as H.
  destruct (forBatches e (batches (readCsv rows)) started)
    as [[] w|w|c w]; [|done|done].
  destruct H as (_ & _ & _ & Hdb & _). simpl in Hdb.
  unfold saveCollection, exit, finished.
  destruct (PrimFloat.is_nan (totalPrice w)); rewrite Hdb; [done|].
  simpl. destruct w. simpl in *. subst. reflexivity.
Qed.

Lemma forBatches_provenance (e : env) (bs : list (list record)) :
  forall w,
    exists docs,
      magicCards (world_of (forBatches e bs w)) = magicCards w ++ docs
      /\ forall d, d ∈ docs -> exists r, r ∈ concat bs /\ base d = base r.
Proof.
  induction bs as [|b bs IH]; intros w.
  - exists []. split; [by rewrite app_nil_r|]. by intros d ?%elem_of_nil.
  - pose proof (processBatch_cases e b w) as Hc.
    destruct (processBatch e b w) as [n w1|w1|c w1] eqn:Hb; [|done|].
    + destruct Hc as (data & docs & _ & _ & _ & Hcards & _ & Hbase & _).
      rewrite (forBatches_cons_Returned _ _ _ _ _ _ Hb).
      destruct (IH (counted n w1)) as (docs' & Hc' & Hfrom).
      exists (docs ++ docs'). split.
      * rewrite Hc'. simpl. by rewrite Hcards, app_assoc.
      * intros d [Hd|Hd]%elem_of_app.
        -- apply (list_elem_of_fmap_2 base) in Hd. rewrite Hbase in Hd.
           apply list_elem_of_fmap in Hd as (m & Hbm & Hm).
           apply elem_of_matched in Hm as (card & i & _ & Hf).
           destruct (proj1 (find_Some _ _ _ _) Hf) as (Hi & _).
           exists m. split; [|done]. simpl. apply elem_of_app. left.
           by eapply list_elem_of_lookup_2.
        -- destruct (Hfrom d Hd) as (r & Hr & Hbr). exists r.
           split; [|done]. simpl. apply elem_of_app. by right.
    + rewrite (forBatches_cons_Exited _ _ _ _ _ _ Hb). simpl.
      destruct Hc as (_ & _ & Hcards & _). exists [].
      split; [by rewrite app_nil_r|]. by intros d ?%elem_of_nil.
Qed.

(** Whatever way a run ends, the cards in the store are records of
    [readCsv], up to what the merge assigned. *)
Lemma stored_from_records (e : env) (rows : list (list string))
  (cards0 : list record) (coll0 : list collection_doc) (d : record) :
  d ∈ magicCards (snd (run e rows (boot cards0 coll0))) ->
  exists k row,
    rows !! k = Some row /\ base d = base (readRow row).
Proof.
  intros Hd.
  destruct (forBatches_provenance e (batches (readCsv rows)) started)
    as (docs & Hcards & Hfrom).
  assert (Hin : d ∈ docs).
  { rewrite run_unfold in Hd. simpl in Hcards.
    destruct (forBatches e (batches (readCsv rows)) started)
      as [u w|w|c w]; simpl in *;
      try destruct (PrimFloat.is_nan (totalPrice w));
      simpl in *; by rewrite Hcards in Hd. }
  destruct (Hfrom d Hin) as (r & Hr & Hbase).
  rewrite batches_concat in Hr.
  apply list_elem_of_lookup in Hr as [k Hk].
  rewrite readCsv_lookup in Hk.
  destruct (rows !! k) as [row|] eqn:Hrow; [|done].
  injection Hk as <-. by exists k, row.
Qed.

(** The value a loop that returns leaves in [totalPrice]. *)
Lemma forBatches_totalPrice (e : env) (bs : list (list record)) :
  forall w u w',
    forBatches e bs w = Returned u w' ->
    totalPrice w'
    = fold_left PrimFloat.add
        (lineValue <$> priced e (length (requests w)) bs) (totalPrice w).
Proof.
  induction bs as [|b bs IH]; intros w u w' H.
  - simpl in H. unfold_M. by injection H as _ <-.
  - destruct (forBatches_cons_inv _ _ _ _ _ _ H) as (w1 & Hb & Hrest).
    pose proof (processBatch_cases e b w) as Hc. rewrite Hb in Hc.
    destruct Hc as (data & docs & Hsrv & _ & Hreq & _ & _ & _ & _ & _
                    & Htot & _).
    rewrite (IH _ _ _ Hrest). cbn [priced counted totalPrice requests].
    rewrite Hsrv, Hreq, length_app, fmap_app, fold_left_app, Htot.
    cbn [length]. by rewrite Nat.add_1_r.
Qed.


(** ** Counting and dropping *)

(** C1, as the code has it: a batch that is processed adds the number of
    its records to [totalCards], one per record whatever its quantity and
    whether or not the response enriched it; so batches of 5 and 3 records
    add 8, and a run that completes ends with [totalCards] equal to the
    number of rows, which is the [total] of the summary document. *)
Theorem totalCards_counts_batch_records :
  (forall e records w n w',
     processBatch e records w = Returned n w' ->
     n = length records /\ totalCards w' = totalCards w)
  /\ (forall e bs w u w',
        forBatches e bs w = Returned u w' ->
        totalCards w' = totalCards w + sum_list (length <$> bs))
  /\ (forall e rows cards0 coll0 w',
        run e rows (boot cards0 coll0) = (0%Z, w') ->
        totalCards w' = length rows
        /\ total <$> magicCollection w' = [length rows]).
Proof.
  split_and!.
  - intros e records w n w' H.
    pose proof (processBatch_cases e records w) as Hc. rewrite H in Hc.
    destruct Hc as (data & docs & Hc). tauto.
  - intros e bs w u w' H.
    pose proof (forBatches_cases e bs w) as Hc. rewrite H in Hc.
    destruct Hc as (-> & _). by rewrite length_concat.
  - intros e rows cards0 coll0 w' H.
    destruct (run_cases e rows cards0 coll0 _ _ H) as (_ & _ & [Hok|Hko]).
    + destruct Hok as (_ & Htc & _ & _ & Hcoll). split; [done|].
      rewrite Hcoll. simpl. by rewrite Htc.
    + by destruct Hko.
Qed.

Lemma totalCards_counts_batch_records_witness :
  exists w',
    forBatches Sample.env_all Sample.batches53 (boot [] []) = Returned tt w'
    /\ totalCards w' = 8.
Proof.
  destruct (forBatches Sample.env_all Sample.batches53 (boot [] []))
    as [[] w'|w'|c w'] eqn:E; [|vm_compute in E; discriminate..].
  exists w'. split; [reflexivity|].
  destruct totalCards_counts_batch_records as (_ & H & _).
  rewrite (H _ _ _ _ _ E). reflexivity.
Defined.

(** C1 as stated fails: the service leaves out one of two records, one
    record is enriched and stored, and [totalCards] is 2. *)
Lemma totalCards_exceeds_enriched :
  let '(code, w') :=
    run (Sample.env_missing "b") Sample.rows2 (boot [] []) in
  code = 0%Z
  /\ scryfallId <$> magicCards w' = [Some "a"]
  /\ totalCards w' = 2
  /\ totalCards w' <> length (magicCards w').
Proof. vm_compute. repeat split; discriminate. Qed.

(** C2, as the code has it: in a batch of records with distinct lookup
    identifiers where the response answers every record but one, and the
    store takes the documents of the batch, the call returns; that record
    is in no document handed to persistence and adds nothing to
    [totalPrice]; every other record is stored, enriched; and the number
    returned for [totalCards] is the length of the batch, so the record
    left out is still counted there. *)
Theorem absent_record_dropped_but_counted
  (e : env) (records : list record) (w : world)
  (data : list scryfall_card) (r0 : record) :
  scryfall e (length (requests w)) (identifiers records) = Some data ->
  NoDup (identifiers records) ->
  r0 ∈ records ->
  (forall card, card ∈ data ->
     is_Some (imageSet card)
     /\ exists r, r ∈ records /\ scryfallId r = Some (card_id card)) ->
  (forall card, card ∈ data -> scryfallId r0 <> Some (card_id card)) ->
  (forall r, r ∈ records -> r <> r0 ->
     exists card, card ∈ data /\ scryfallId r = Some (card_id card)) ->
  insertMany_ok e (batch_documents records data) = true ->
  exists w' docs,
    processBatch e records w = Returned (length records) w'
    /\ docs = batch_documents records data
    /\ magicCards w' = magicCards w ++ docs
    /\ (forall d, d ∈ docs -> scryfallId d <> scryfallId r0)
    /\ (forall r, r ∈ records -> r <> r0 ->
          exists d, d ∈ docs /\ base d = base r /\ is_enriched d = true)
    /\ (r0 ∉ matched records data)
    /\ totalPrice w'
       = fold_left PrimFloat.add
           (lineValue <$> matched records data) (totalPrice w).
Proof.
  intros Hsrv Hnd Hr0 Hdata Habsent Hothers Hstore.
  destruct (processBatch_accepts e records w data Hsrv) as (w' & Hrun & Hmc);
    [|done|].
  { intros card Hc. destruct (Hdata card Hc) as (Him & r & Hr & Hid).
    split; [by eapply find_is_Some|done]. }
  pose proof (processBatch_cases e records w) as Hc. rewrite Hrun in Hc.
  destruct Hc as (data' & docs & Hsrv' & _ & _ & Hcards & _ & Hbase & _
                  & Hen & Htot & _).
  assert (data' = data) as -> by congruence.
  assert (docs = batch_documents records data) as Hdocs.
  { rewrite Hmc in Hcards. by apply app_inv_head in Hcards. }
  assert (Hm : forall m, m ∈ matched records data ->
                 exists card, card ∈ data
                              /\ scryfallId m = Some (card_id card)).
  { intros m (card & i & Hc & Hf)%elem_of_matched. exists card.
    split; [done|]. by destruct (proj1 (find_Some _ _ _ _) Hf) as (_ & ? & _). }
  exists w', docs. split_and!; try done.
  - intros d Hd Heq.
    apply (list_elem_of_fmap_2 base) in Hd. rewrite Hbase in Hd.
    apply list_elem_of_fmap in Hd as (m & Hbm & Hmm).
    destruct (Hm m Hmm) as (card & Hc & Hid).
    apply (Habsent card Hc).
    by rewrite <- Heq, (scryfallId_base _ _ Hbm).
  - intros r Hr Hne. destruct (Hothers r Hr Hne) as (card & Hc & Hid).
    destruct (find_is_Some records (card_id card) r Hr Hid) as [[i o] Hf].
    destruct (proj1 (find_Some _ _ _ _) Hf) as (Hi & Hio & _).
    assert (o = r) as ->.
    { apply (NoDup_fmap_elem scryfallId records); try done.
      - by eapply list_elem_of_lookup_2.
      - congruence. }
    assert (Hrm : r ∈ matched records data).
    { apply elem_of_matched. by exists card, i. }
    apply (list_elem_of_fmap_2 base) in Hrm. rewrite <- Hbase in Hrm.
    apply list_elem_of_fmap in Hrm as (d & Hbd & Hd).
    exists d. split_and!; [done|done|].
    by eapply (proj1 (Forall_forall _ _) Hen).
  - intros Hin. destruct (Hm r0 Hin) as (card & Hc & Hid).
    by apply (Habsent card Hc).
Qed.

Lemma absent_record_dropped_but_counted_witness :
  let e := Sample.env_strict_missing "b" in
  let records := readCsv Sample.rows3 in
  let r0 := readRow (Sample.row "foil" "1" "m2" "b" "0.50") in
  let data := [Sample.card "a"; Sample.card "c"] in
  exists w' docs,
    processBatch e records (boot [] []) = Returned (length records) w'
    /\ docs = batch_documents records data
    /\ magicCards w' = magicCards (boot [] []) ++ docs
    /\ (forall d, d ∈ docs -> scryfallId d <> scryfallId r0)
    /\ (forall r, r ∈ records -> r <> r0 ->
          exists d, d ∈ docs /\ base d = base r /\ is_enriched d = true)
    /\ (r0 ∉ matched records data)
    /\ totalPrice w'
       = fold_left PrimFloat.add
           (lineValue <$> matched records data) (totalPrice (boot [] [])).
Proof.
  intros e records r0 data.
  apply (absent_record_dropped_but_counted e records (boot [] []) data r0).
  - vm_compute. reflexivity.
  - apply (bool_decide_unpack _). vm_compute. exact I.
  - apply list_elem_of_further, list_elem_of_here.
  - intros card Hc. apply elem_of_cons in Hc as [->|Hc];
      [|apply elem_of_cons in Hc as [->|Hc]; [|by apply elem_of_nil in Hc]].
    + split; [by eexists|]. eexists. split; [apply list_elem_of_here|done].
    + split; [by eexists|]. eexists.
      split; [apply list_elem_of_further, list_elem_of_further,
              list_elem_of_here|done].
  - intros card Hc. apply elem_of_cons in Hc as [->|Hc];
      [|apply elem_of_cons in Hc as [->|Hc]; [|by apply elem_of_nil in Hc]];
      vm_compute; discriminate.
  - intros r Hr Hne. apply elem_of_cons in Hr as [->|Hr];
      [|apply elem_of_cons in Hr as [->|Hr];
        [|apply elem_of_cons in Hr as [->|Hr]; [|by apply elem_of_nil in Hr]]].
    + exists (Sample.card "a"). split; [apply list_elem_of_here|done].
    + by destruct Hne.
    + exists (Sample.card "c").
      split; [apply list_elem_of_further, list_elem_of_here|done].
  - vm_compute. reflexivity.
Defined.

(** C2 as stated fails.  Of three records the service leaves out the
    second: it is not stored and adds nothing to [totalPrice], but
    [totalCards] is 3, not 2.  And when two records share an identifier and
    a third one is left out, only the first of the two is merged and stored
    (here twice, once per card object): the second is dropped although its
    identifier was answered. *)
Lemma absent_record_still_in_totalCards :
  (let '(code, w') :=
     run (Sample.env_missing "b") Sample.rows3 (boot [] []) in
   code = 0%Z
   /\ scryfallId <$> magicCards w' = [Some "a"; Some "c"]
   /\ totalPrice w' = 850%float
   /\ totalCards w' = 3
   /\ totalCards w' <> 2)
  /\ (let '(code, w') :=
        run (Sample.env_missing "b")
          [Sample.row "normal" "1" "m1" "a" "1.00";
           Sample.row "normal" "1" "m2" "a" "1.00";
           Sample.row "normal" "1" "m3" "b" "1.00"] (boot [] []) in
      code = 0%Z
      /\ requests w' = [[Some "a"; Some "a"; Some "b"]]
      /\ manaboxId <$> magicCards w' = [Some "m1"; Some "m1"]).
Proof. vm_compute. repeat split; discriminate. Qed.

(** ** The normalizer *)

Lemma batches_head (records : list record) :
  records <> [] -> batches records !! 0 = Some (take BATCH_SIZE records).
Proof.
  intros Hne. unfold batches.
  destruct records as [|r records]; [done|]. simpl.
  destruct (decide (0 < S (length records))); [|lia].
  simpl. by rewrite slice_take_drop, drop_0.
Qed.

(** C3, as the code has it: [price] is the price column converted to a
    Number and multiplied by 100 in binary64 arithmetic; nothing rounds the
    product to an integer, in [readCsv] or later: the price of every card
    in the store is this product for the card's row. *)
Theorem price_is_unrounded_product :
  (forall rows : list (list string),
     price <$> readCsv rows
     = (fun row => PrimFloat.mul (ToNumber (row !! 9)) 100) <$> rows)
  /\ (forall e rows cards0 coll0 d,
        d ∈ magicCards (snd (run e rows (boot cards0 coll0))) ->
        exists row,
          row ∈ rows
          /\ scryfallId d = row !! 8
          /\ price d = PrimFloat.mul (ToNumber (row !! 9)) 100).
Proof.
  split.
  - induction rows as [|row rows IH]; [done|].
    change (readCsv (row :: rows)) with (readRow row :: readCsv rows).
    by rewrite !fmap_cons, IH.
  - intros e rows cards0 coll0 d Hd.
    destruct (stored_from_records e rows cards0 coll0 d Hd)
      as (k & row & Hk & Hbase).
    exists row. split; [by eapply list_elem_of_lookup_2|].
    unfold base in Hbase. by injection Hbase as _ _ _ -> ->.
Qed.

Lemma price_is_unrounded_product_witness :
  exists row,
    row ∈ Sample.rows2
    /\ Some "b" = row !! 8
    /\ price (readRow (Sample.row "foil" "1" "m2" "b" "0.07"))
       = PrimFloat.mul (ToNumber (row !! 9)) 100.
Proof.
  destruct price_is_unrounded_product as [_ H].
  apply (H Sample.env_all Sample.rows2 [] []
           (merged (Sample.card "b")
              (readRow (Sample.row "foil" "1" "m2" "b" "0.07")))).
  vm_compute. apply list_elem_of_further, list_elem_of_here.
Defined.

(** C3 as stated fails: the prices 0.07, 0.29 and 0.125 are stored as
    7.000000000000001, 28.999999999999996 and 12.5, none of them the
    integer number of cents. *)
Lemma price_not_nearest_cent :
  price <$> readCsv [Sample.row "normal" "1" "m1" "a" "0.07";
                     Sample.row "normal" "1" "m2" "b" "0.29";
                     Sample.row "normal" "1" "m3" "c" "0.125"]
  = [0x1.c000000000001p+2; 0x1.cffffffffffffp+4; 12.5]%float
  /\ price (readRow (Sample.row "normal" "1" "m1" "a" "0.07")) <> 7%float
  /\ price (readRow (Sample.row "normal" "1" "m2" "b" "0.29")) <> 29%float.
Proof. vm_compute. repeat split; discriminate. Qed.

(** C4, as the code has it: [readCsv] has no failure; a row whose quantity
    or price column is malformed or missing becomes a record like any
    other, the quantity copied as it is and the price [NaN] when the column
    is no numeral; the record is batched, the first request of the run is
    always posted, and the request of the record's batch, when the run gets
    to it, carries the record's lookup identifier at the record's place. *)
Theorem malformed_row_is_processed
  (e : env) (rows : list (list string))
  (cards0 : list record) (coll0 : list collection_doc)
  (k : nat) (row : list string) :
  rows !! k = Some row ->
  exists r,
    readCsv rows !! k = Some r
    /\ quantity r = row !! 6
    /\ scryfallId r = row !! 8
    /\ price r = PrimFloat.mul (ToNumber (row !! 9)) 100
    /\ (ToNumber (row !! 9) = nan -> price r = nan)
    /\ r ∈ concat (batches (readCsv rows))
    /\ is_Some (requests (snd (run e rows (boot cards0 coll0))) !! 0)
    /\ (forall req,
          requests (snd (run e rows (boot cards0 coll0))) !! (k / BATCH_SIZE)
          = Some req ->
          req !! (k mod BATCH_SIZE) = Some (scryfallId r)).
Proof.
  intros Hk.
  assert (Hr : readCsv rows !! k = Some (readRow row))
    by (by rewrite readCsv_lookup, Hk).
  assert (Hne : readCsv rows <> []) by (by intros E; rewrite E in Hr).
  destruct (run e rows (boot cards0 coll0)) as [code w'] eqn:Hrun.
  destruct (run_cases e rows cards0 coll0 _ _ Hrun) as (_ & _ & Hc).
  cbn [snd].
  assert (Hreq : exists j, requests w'
                           = identifiers <$> take (S j) (batches (readCsv rows))).
  { destruct Hc as [(_ & _ & -> & _)|(_ & _ & (j & _ & ->) & _)].
    - exists (length (batches (readCsv rows))). by rewrite take_ge by lia.
    - by exists j. }
  destruct Hreq as [j Hreq].
  exists (readRow row). split_and!; try done.
  - intros Hnan. simpl. by rewrite Hnan.
  - rewrite batches_concat. by eapply list_elem_of_lookup_2.
  - rewrite Hreq, list_lookup_fmap, lookup_take_lt by lia.
    by rewrite batches_head.
  - intros req. rewrite Hreq, list_lookup_fmap. intros Hq.
    destruct (take (S j) (batches (readCsv rows)) !! (k / BATCH_SIZE))
      as [b|] eqn:Hb; [|done].
    injection Hq as <-.
    apply lookup_take_Some in Hb as [Hb _].
    apply batches_loop_lookup in Hb as [-> _].
    unfold identifiers.
    rewrite list_lookup_fmap, lookup_take_lt, lookup_drop.
    + replace (0 + k / BATCH_SIZE * BATCH_SIZE + k mod BATCH_SIZE) with k.
      * by rewrite Hr.
      * pose proof (Nat.div_mod_eq k BATCH_SIZE). lia.
    + apply Nat.mod_upper_bound. unfold BATCH_SIZE. lia.
Qed.

Lemma malformed_row_is_processed_witness :
  exists r,
    readCsv [Sample.row "normal" "two" "m1" "a" "n/a"] !! 0 = Some r
    /\ quantity r = Some "two"
    /\ scryfallId r = Some "a"
    /\ price r = PrimFloat.mul (ToNumber (Some "n/a")) 100
    /\ (ToNumber (Some "n/a") = nan -> price r = nan)
    /\ r ∈ concat (batches (readCsv [Sample.row "normal" "two" "m1" "a" "n/a"]))
    /\ is_Some (requests (snd (run Sample.env_down
                                 [Sample.row "normal" "two" "m1" "a" "n/a"]
                                 (boot [] []))) !! 0)
    /\ (forall req,
          requests (snd (run Sample.env_down
                           [Sample.row "normal" "two" "m1" "a" "n/a"]
                           (boot [] []))) !! (0 / BATCH_SIZE)
          = Some req ->
          req !! (0 mod BATCH_SIZE) = Some (scryfallId r)).
Proof.
  apply (malformed_row_is_processed Sample.env_down
           [Sample.row "normal" "two" "m1" "a" "n/a"] [] [] 0
           (Sample.row "normal" "two" "m1" "a" "n/a")).
  reflexivity.
Defined.

(** C4 as stated fails: a row with the quantity [two] and the price [n/a]
    raises no error in [readCsv]; it becomes a record, with the price
    [NaN], that is posted to the service.  When the service does not know
    its card, the run completes with status 0 beside it, the row counted in
    [totalCards]; when the service knows it, the record is merged and
    handed to the store, and with a store that validates numbers the run
    ends with status 1 at [insertMany], after the record was processed. *)
Lemma malformed_row_not_rejected :
  let bad := Sample.row "normal" "two" "m2" "b" "n/a" in
  let good := Sample.row "normal" "2" "m1" "a" "1.25" in
  quantity <$> readCsv [bad] = [Some "two"]
  /\ price <$> readCsv [bad] = [nan]
  /\ (let '(code, w') :=
        run (Sample.env_strict_missing "b") [good; bad] (boot [] []) in
      code = 0%Z
      /\ requests w' = [[Some "a"; Some "b"]]
      /\ scryfallId <$> magicCards w' = [Some "a"]
      /\ totalCards w' = 2
      /\ length (magicCollection w') = 1)
  /\ (let '(code, w') := run Sample.env_strict [good; bad] (boot [] []) in
      code = 1%Z
      /\ requests w' = [[Some "a"; Some "b"]]
      /\ PrimFloat.is_nan (totalPrice w') = true).
Proof. vm_compute. repeat split. Qed.

(** ** Abort on a failed lookup *)

(** C5: when the call for a batch fails (the [k]-th request of the run got
    no answer), the process exits with status 1, no summary document has
    been written, and the connection is closed; when it is the first call,
    no card has been stored. *)
Theorem enrichment_failure_aborts
  (e : env) (rows : list (list string))
  (cards0 : list record) (coll0 : list collection_doc)
  (code : Z) (w' : world) (k : nat) (req : list (option string)) :
  run e rows (boot cards0 coll0) = (code, w') ->
  requests w' !! k = Some req ->
  scryfall e k req = None ->
  code = 1%Z
  /\ magicCollection w' = []
  /\ connected w' = false
  /\ (k = 0 -> magicCards w' = []).
Proof.
  intros Hrun Hreq Hfail.
  destruct (run_cases e rows cards0 coll0 _ _ Hrun) as (Hconn & _ & Hc).
  destruct Hc as [(_ & _ & _ & Hok & _)|(-> & Hcoll & _ & Hfirst)].
  - destruct (Hok k req Hreq) as [data Hdata]. congruence.
  - split_and!; try done. intros ->. by eapply Hfirst.
Qed.

Lemma enrichment_failure_aborts_witness :
  exists w',
    run Sample.env_down Sample.rows2 (boot [] []) = (1%Z, w')
    /\ magicCollection w' = []
    /\ connected w' = false
    /\ magicCards w' = [].
Proof.
  destruct (run Sample.env_down Sample.rows2 (boot [] [])) as [code w']
    eqn:Hrun.
  destruct (enrichment_failure_aborts Sample.env_down Sample.rows2 [] []
              code w' 0 [Some "a"; Some "b"] Hrun)
    as (-> & Hcoll & Hconn & Hcards).
  - vm_compute in Hrun. injection Hrun as _ <-. reflexivity.
  - reflexivity.
  - exists w'. auto.
Defined.

(** ** What is merged and stored *)

(** C7: a card object with [image_uris] gives [front] from it and no
    [back]; without [image_uris], one face gives [front] only, and two
    faces give [front] from the first and [back] from the second; and the
    merge stores that image set in the record the card object matches. *)
Theorem images_by_shape :
  (forall card u,
     card_image_uris card = Some u ->
     imageSet card = Some {| front := u; back := None |})
  /\ (forall card f u,
        card_image_uris card = None ->
        card_faces card = Some [f] ->
        face_image_uris f = Some u ->
        imageSet card = Some {| front := u; back := None |})
  /\ (forall card f1 f2 u1 u2,
        card_image_uris card = None ->
        card_faces card = Some [f1; f2] ->
        face_image_uris f1 = Some u1 ->
        face_image_uris f2 = Some u2 ->
        imageSet card = Some {| front := u1; back := Some u2 |})
  /\ (forall card b w i o im,
        find (objs b) (card_id card) = Some (i, o) ->
        imageSet card = Some im ->
        exists b' w' o',
          mergeCard card b w = Returned b' w'
          /\ objs b' !! i = Some o'
          /\ images o' = Some im).
Proof.
  split_and!.
  - intros card u Hu. unfold imageSet. by rewrite Hu.
  - intros card f u Hn Hf Hu. unfold imageSet. rewrite Hn, Hf. simpl.
    by rewrite Hu.
  - intros card f1 f2 u1 u2 Hn Hf H1 H2. unfold imageSet.
    rewrite Hn, Hf. simpl. by rewrite H1, H2.
  - intros card b w i o im Hf Him.
    pose proof (mergeCard_cases card b w) as Hc.
    destruct (mergeCard card b w) as [b' w'|w'|c w']; [| |done].
    + destruct Hc as (i' & o' & im' & Hf' & Him' & Hobjs & _).
      rewrite Hf in Hf'. injection Hf' as <- <-.
      rewrite Him in Him'. injection Him' as <-.
      exists b', w', (setImages im (setFields card o)).
      split; [done|]. rewrite Hobjs. split; [|reflexivity].
      apply list_lookup_insert_eq.
      destruct (proj1 (find_Some _ _ _ _) Hf) as (Hi & _).
      by eapply lookup_lt_Some.
    + destruct Hc as (_ & [Hn|Hn]); congruence.
Qed.

Lemma images_by_shape_witness :
  imageSet (Sample.card "a")
  = Some {| front := Sample.uris "a"; back := None |}
  /\ imageSet (Sample.faced "d" [Sample.face "d1"])
     = Some {| front := Sample.uris "d1"; back := None |}
  /\ imageSet (Sample.faced "d" [Sample.face "d1"; Sample.face "d2"])
     = Some {| front := Sample.uris "d1"; back := Some (Sample.uris "d2") |}
  /\ exists b' w' o',
       mergeCard (Sample.faced "b" [Sample.face "d1"; Sample.face "d2"])
         {| objs := readCsv Sample.rows2; cards := [] |} (boot [] [])
       = Returned b' w'
       /\ objs b' !! 1 = Some o'
       /\ images o'
          = Some {| front := Sample.uris "d1";
                    back := Some (Sample.uris "d2") |}.
Proof.
  destruct images_by_shape as (H1 & H2 & H3 & H4).
  split_and!.
  - apply H1. reflexivity.
  - apply (H2 _ (Sample.face "d1")); reflexivity.
  - apply (H3 _ (Sample.face "d1") (Sample.face "d2")); reflexivity.
  - eapply H4.
    + vm_compute. reflexivity.
    + reflexivity.
Defined.

(** C8: the documents a batch hands to [insertMany] all carry [name],
    [setCode], [setName], [rarity], [layout] and [images] (with [front]);
    and whatever way a run ends, every card in the store carries them. *)
Theorem stored_cards_are_enriched :
  (forall data records w b' w',
     mergeCards data {| objs := records; cards := [] |} w = Returned b' w' ->
     forall d, d ∈ documents b' -> has_all_fields d)
  /\ (forall e rows cards0 coll0 d,
        d ∈ magicCards (snd (run e rows (boot cards0 coll0))) ->
        has_all_fields d).
Proof.
  split.
  - intros data records w b' w' H d Hd.
    pose proof (mergeCards_cases data {| objs := records; cards := [] |} w)
      as Hc.
    rewrite H in Hc. destruct Hc as (_ & _ & _ & _ & _ & Hen).
    apply is_enriched_fields.
    apply (proj1 (Forall_forall _ _) (documents_enriched b' (Hen (Forall_nil_2 _))) d Hd).
  - intros e rows cards0 coll0 d Hd.
    destruct (run e rows (boot cards0 coll0)) as [code w'] eqn:Hrun.
    destruct (run_cases e rows cards0 coll0 _ _ Hrun) as (_ & Hen & _).
    apply is_enriched_fields.
    by apply (proj1 (Forall_forall _ _) Hen).
Qed.

Lemma stored_cards_are_enriched_witness :
  (forall d,
     d ∈ documents
           (match mergeCards (Sample.known [Some "b"; Some "a"])
                    {| objs := readCsv Sample.rows2; cards := [] |}
                    (boot [] []) with
            | Returned b' _ => b'
            | _ => {| objs := []; cards := [] |}
            end) ->
     has_all_fields d)
  /\ (forall d,
        d ∈ magicCards (snd (run Sample.env_all Sample.rows2 (boot [] []))) ->
        has_all_fields d).
Proof.
  destruct stored_cards_are_enriched as (H1 & H2). split.
  - destruct (mergeCards (Sample.known [Some "b"; Some "a"])
                {| objs := readCsv Sample.rows2; cards := [] |} (boot [] []))
      as [b' w'|w'|c w'] eqn:E; [|vm_compute in E; discriminate..].
    exact (H1 _ _ _ _ _ E).
  - apply H2.
Defined.

(** C9: the request of a batch lists the [scryfallId] of every record, in
    the order of the batch and with repetitions kept; and each card object
    of the response is merged onto the first record of the batch, in its
    order, whose [scryfallId] is the card object's [id]: that record gets
    its [name], [set], [set_name], [rarity], [layout] and images, the other
    records are left as they are, and [cards] gets a reference to it.  For
    [processBatch] as a whole: what it stores is, for each card object of
    the response to its request and in the order of the response, that
    first record with the fields copied onto it (those of the last card
    object with the same [id], which is the card object itself when the
    [id]s of the response are distinct). *)
Theorem request_order_and_first_match :
  (forall e records w,
     requests (world_of (processBatch e records w))
     = requests w ++ [scryfallId <$> records])
  /\ (forall card b w b' w',
        mergeCard card b w = Returned b' w' ->
        exists i o o',
          first_match (objs b) card i
          /\ objs b !! i = Some o
          /\ objs b' !! i = Some o'
          /\ base o' = base o
          /\ name o' = Some (card_name card)
          /\ setCode o' = Some (card_set card)
          /\ setName o' = Some (card_set_name card)
          /\ rarity o' = Some (card_rarity card)
          /\ layout o' = Some (card_layout card)
          /\ images o' = imageSet card
          /\ (forall j, j <> i -> objs b' !! j = objs b !! j)
          /\ cards b' = cards b ++ [i])
  /\ (forall data records w b' w',
        mergeCards data {| objs := records; cards := [] |} w
        = Returned b' w' ->
        Forall2 (first_match records) data (cards b'))
  /\ (forall e records w n w' data,
        scryfall e (length (requests w)) (identifiers records) = Some data ->
        processBatch e records w = Returned n w' ->
        exists docs,
          magicCards w' = magicCards w ++ docs
          /\ Forall2 (merged_onto_first records data) data docs)
  /\ (forall card r,
        is_Some (imageSet card) ->
        base (merged card r) = base r
        /\ name (merged card r) = Some (card_name card)
        /\ setCode (merged card r) = Some (card_set card)
        /\ setName (merged card r) = Some (card_set_name card)
        /\ rarity (merged card r) = Some (card_rarity card)
        /\ layout (merged card r) = Some (card_layout card)
        /\ images (merged card r) = imageSet card)
  /\ (forall (data : list scryfall_card) card,
        NoDup (card_id <$> data) -> card ∈ data ->
        last (filter (fun c => card_id c = card_id card) data) = Some card).
Proof.
  split_and!.
  - intros e records w. pose proof (processBatch_cases e records w) as Hc.
    destruct (processBatch e records w) as [n w'|w'|c w']; [| done |]; simpl.
    + destruct Hc as (data & docs & _ & _ & Hreq & _). done.
    + destruct Hc as (_ & _ & _ & _ & Hreq & _). done.
  - intros card b w b' w' H.
    pose proof (mergeCard_cases card b w) as Hc. rewrite H in Hc.
    destruct Hc as (i & o & im & Hf & Him & Hobjs & Hcards & _).
    pose proof (proj1 (find_Some _ _ _ _) Hf) as (Hi & Hid & Hfirst).
    exists i, o, (setImages im (setFields card o)).
    split_and!; try done.
    + by exists o.
    + rewrite Hobjs. apply list_lookup_insert_eq. by eapply lookup_lt_Some.
    + intros j Hj. rewrite Hobjs. by apply list_lookup_insert_ne.
  - intros data records w b' w' H.
    pose proof (mergeCards_cases data {| objs := records; cards := [] |} w)
      as Hc.
    rewrite H in Hc. destruct Hc as (_ & Hcards & Hlen & _).
    simpl in *. rewrite Hcards. by apply targets_first_match.
  - intros e records w n w' data Hsrv H.
    destruct (processBatch_Returned_docs _ _ _ _ _ H)
      as (data' & Hsrv' & Hwf & _ & Hcards & _).
    assert (data' = data) as -> by congruence.
    exists (batch_documents records data). split; [done|].
    by apply batch_documents_merged.
  - apply merged_fields.
  - apply last_same_id.
Qed.

Lemma request_order_and_first_match_witness :
  requests (world_of (processBatch Sample.env_all
                        (readCsv (Sample.rows_of ["a"; "b"; "a"]))
                        (boot [] [])))
  = [[Some "a"; Some "b"; Some "a"]]
  /\ (exists b' w',
        mergeCards [Sample.card "b"; Sample.card "a"]
          {| objs := readCsv (Sample.rows_of ["a"; "b"; "a"]); cards := [] |}
          (boot [] [])
        = Returned b' w'
        /\ Forall2 (first_match (readCsv (Sample.rows_of ["a"; "b"; "a"])))
             [Sample.card "b"; Sample.card "a"] (cards b')
        /\ cards b' = [1; 0])
  /\ (exists w' docs,
        processBatch Sample.env_reversed (readCsv Sample.rows2) (boot [] [])
        = Returned 2 w'
        /\ magicCards w' = magicCards (boot [] []) ++ docs
        /\ Forall2 (merged_onto_first (readCsv Sample.rows2)
                      [Sample.card "b"; Sample.card "a"])
             [Sample.card "b"; Sample.card "a"] docs)
  /\ name (merged (Sample.card "b")
             (readRow (Sample.row "foil" "1" "m2" "b" "0.07")))
     = Some "Opt"
  /\ last (filter (fun c => card_id c = "a")
             [Sample.card "b"; Sample.card "a"])
     = Some (Sample.card "a").
Proof.
  destruct request_order_and_first_match as (H1 & _ & H3 & H4 & H5 & H6).
  split_and!.
  - rewrite H1. reflexivity.
  - destruct (mergeCards [Sample.card "b"; Sample.card "a"]
                {| objs := readCsv (Sample.rows_of ["a"; "b"; "a"]);
                   cards := [] |} (boot [] []))
      as [b' w'|w'|c w'] eqn:E; [|vm_compute in E; discriminate..].
    exists b', w'. split; [reflexivity|]. split; [exact (H3 _ _ _ _ _ E)|].
    vm_compute in E. injection E as <- _. reflexivity.
  - destruct (processBatch Sample.env_reversed (readCsv Sample.rows2)
                (boot [] [])) as [n w'|w'|c w'] eqn:E;
      [|vm_compute in E; discriminate..].
    destruct (H4 Sample.env_reversed (readCsv Sample.rows2) (boot [] []) n w'
                [Sample.card "b"; Sample.card "a"] eq_refl E)
      as (docs & Hcards & Hall).
    exists w', docs. split_and!; try done.
    f_equal. vm_compute in E. by injection E as <- _.
  - apply (H5 (Sample.card "b")). by eexists.
  - apply (H6 [Sample.card "b"; Sample.card "a"] (Sample.card "a")).
    + apply (bool_decide_unpack _). vm_compute. exact I.
    + apply list_elem_of_further, list_elem_of_here.
Defined.

(** C10: the documents of a batch are handed to [insertMany] in the order
    of the [data] list of the response; when that order is not the order
    of the request, the cards are stored in another order than the rows of
    the batch. *)
Theorem stored_in_response_order
  (e : env) (records : list record) (w : world) (n : nat) (w' : world)
  (data : list scryfall_card) :
  scryfall e (length (requests w)) (identifiers records) = Some data ->
  processBatch e records w = Returned n w' ->
  exists docs,
    magicCards w' = magicCards w ++ docs
    /\ scryfallId <$> docs = (fun card => Some (card_id card)) <$> data
    /\ ((fun card => Some (card_id card)) <$> data <> identifiers records ->
        scryfallId <$> docs <> scryfallId <$> records).
Proof.
  intros Hsrv H.
  pose proof (processBatch_cases e records w) as Hc. rewrite H in Hc.
  destruct Hc as (data' & docs & Hsrv' & _ & _ & Hcards & _ & Hbase & Hlen
                  & _).
  assert (data' = data) as -> by congruence.
  assert (Hids : scryfallId <$> docs
                 = (fun card => Some (card_id card)) <$> data).
  { rewrite (fmap_through_base scryfallId _ _ scryfallId_base Hbase).
    apply matched_ids. by rewrite <- matched_length. }
  exists docs. split_and!; [done|done|].
  intros Hne. by rewrite Hids.
Qed.

Lemma stored_in_response_order_witness :
  exists w' docs,
    processBatch Sample.env_reversed (readCsv Sample.rows2) (boot [] [])
    = Returned 2 w'
    /\ magicCards w' = docs
    /\ scryfallId <$> docs = [Some "b"; Some "a"]
    /\ scryfallId <$> docs <> scryfallId <$> readCsv Sample.rows2.
Proof.
  destruct (processBatch Sample.env_reversed (readCsv Sample.rows2)
              (boot [] [])) as [n w'|w'|c w'] eqn:E;
    [|vm_compute in E; discriminate..].
  destruct (stored_in_response_order Sample.env_reversed
              (readCsv Sample.rows2) (boot [] []) n w'
              [Sample.card "b"; Sample.card "a"] eq_refl E)
    as (docs & Hcards & Hids & Hne).
  exists w', docs. split_and!.
  - f_equal. vm_compute in E. by injection E as <- _.
  - exact Hcards.
  - exact Hids.
  - apply Hne. vm_compute. discriminate.
Defined.


(** * Further properties of the importer *)

(** ** The run as a whole *)


(** The requests a run has posted are those of the first batches. *)
Lemma run_requests (e : env) (rows : list (list string))
  (cards0 : list record) (coll0 : list collection_doc) :
  exists j,
    requests (snd (run e rows (boot cards0 coll0)))
    = identifiers <$> take (S j) (batches (readCsv rows)).
Proof.
  destruct (run e rows (boot cards0 coll0)) as [code w'] eqn:Hrun.
  destruct (run_cases e rows cards0 coll0 _ _ Hrun) as (_ & _ & Hc).
  cbn [snd].
  destruct Hc as [(_ & _ & -> & _)|(_ & _ & (j & _ & ->) & _)].
  - exists (length (batches (readCsv rows))). by rewrite take_ge by lia.
  - by exists j.
Qed.

(** X1: a run starts by emptying both collections, so nothing of what an
    earlier run left in the store has any part in it: the exit status and
    the final state are those of a run over an empty store. *)
Theorem run_replaces_prior_store
  (e : env) (rows : list (list string))
  (cards0 : list record) (coll0 : list collection_doc) :
  run e rows (boot cards0 coll0) = run e rows (boot [] []).
Proof. by rewrite !run_unfold. Qed.

(** X2: a run posts no request exactly when the file has no data row; it
    then stores no card, writes a summary of 0 cards worth 0, and ends with
    status 0. *)
Theorem no_rows_no_request
  (e : env) (rows : list (list string))
  (cards0 : list record) (coll0 : list collection_doc) :
  (requests (snd (run e rows (boot cards0 coll0))) = [] <-> rows = [])
  /\ (rows = [] ->
      run e rows (boot cards0 coll0) = (0%Z, finished e started)).
Proof.
  split; [split|].
  - intros Hreq. destruct rows as [|row rows]; [done|]. exfalso.
    destruct (run_requests e (row :: rows) cards0 coll0) as [j Hj].
    rewrite Hreq in Hj. apply (f_equal (fun l => l !! 0)) in Hj.
    rewrite list_lookup_fmap, lookup_take_lt, batches_head in Hj by (lia || done).
    done.
  - by intros ->.
  - by intros ->.
Qed.

(** X3: however a run ends, the connection is closed; the exit status is 0
    or 1; it is 0 exactly when the store holds one summary document (the
    two totals of the run, [total] being the number of rows), and 1 exactly
    when it holds none. *)
Theorem run_ends_closed
  (e : env) (rows : list (list string))
  (cards0 : list record) (coll0 : list collection_doc) :
  let code := fst (run e rows (boot cards0 coll0)) in
  let w' := snd (run e rows (boot cards0 coll0)) in
  connected w' = false
  /\ (code = 0%Z \/ code = 1%Z)
  /\ (code = 0%Z <->
      magicCollection w'
      = [{| value := totalPrice w'; total := length rows;
            updated := now e |}])
  /\ (code = 1%Z <-> magicCollection w' = []).
Proof.
  destruct (run e rows (boot cards0 coll0)) as [code w'] eqn:Hrun.
  destruct (run_cases e rows cards0 coll0 _ _ Hrun) as (Hconn & _ & Hc).
  cbn [fst snd].
  destruct Hc as [(-> & Htc & _ & _ & Hcoll)|(-> & Hcoll & _)].
  - rewrite Hcoll, Htc. split_and!; try done; by auto.
  - rewrite Hcoll. split_and!; try done; by auto.
Qed.

Lemma batch_length (records b : list record) :
  b ∈ batches records -> 0 < length b <= BATCH_SIZE.
Proof.
  intros (k & Hk)%list_elem_of_lookup. unfold batches in Hk.
  apply batches_loop_lookup in Hk as [-> Hk].
  rewrite length_take, length_drop. unfold BATCH_SIZE in *. lia.
Qed.

Lemma identifiers_concat (bs : list (list record)) :
  concat (identifiers <$> bs) = identifiers (concat bs).
Proof.
  induction bs as [|b bs IH]; [done|].
  rewrite fmap_cons. simpl. rewrite IH.
  unfold identifiers. by rewrite fmap_app.
Qed.

Lemma readCsv_identifiers (rows : list (list string)) :
  identifiers (readCsv rows) = (fun row => row !! 8) <$> rows.
Proof.
  unfold identifiers. induction rows as [|row rows IH]; [done|].
  change (readCsv (row :: rows)) with (readRow row :: readCsv rows).
  by rewrite !fmap_cons, IH.
Qed.

(** X4: every request a run posts carries between 1 and 75 identifiers;
    and a run that completes has posted one request per batch, ceil(N/75)
    in all, that together list the lookup column of the rows in the order
    of the file. *)
Theorem requests_within_batch_size
  (e : env) (rows : list (list string))
  (cards0 : list record) (coll0 : list collection_doc) :
  let code := fst (run e rows (boot cards0 coll0)) in
  let w' := snd (run e rows (boot cards0 coll0)) in
  Forall (fun req => 0 < length req <= BATCH_SIZE) (requests w')
  /\ (code = 0%Z ->
      concat (requests w') = (fun row => row !! 8) <$> rows
      /\ length (requests w')
         = (length rows + (BATCH_SIZE - 1)) / BATCH_SIZE).
Proof.
  cbn zeta. split.
  - destruct (run_requests e rows cards0 coll0) as [j ->].
    apply Forall_fmap, Forall_forall. intros b Hb. simpl.
    unfold identifiers. rewrite length_fmap.
    apply (batch_length (readCsv rows)).
    apply list_elem_of_lookup in Hb as [k Hk].
    apply lookup_take_Some in Hk as [Hk _].
    by eapply list_elem_of_lookup_2.
  - destruct (run e rows (boot cards0 coll0)) as [code w'] eqn:Hrun.
    destruct (run_cases e rows cards0 coll0 _ _ Hrun) as (_ & _ & Hc).
    cbn [fst snd]. intros ->.
    destruct Hc as [(_ & _ & -> & _)|(? & _)]; [|done].
    rewrite identifiers_concat, batches_concat, readCsv_identifiers.
    split; [done|]. rewrite length_fmap. unfold batches.
    rewrite batches_loop_length by lia.
    by rewrite Nat.sub_0_r, readCsv_length.
Qed.

Lemma requests_within_batch_size_witness :
  concat (requests (snd (run Sample.env_all Sample.rows3 (boot [] []))))
  = [Some "a"; Some "b"; Some "c"]
  /\ length (requests (snd (run Sample.env_all Sample.rows3 (boot [] []))))
     = 1.
Proof.
  apply (requests_within_batch_size Sample.env_all Sample.rows3 [] []).
  vm_compute. reflexivity.
Defined.

(** ** Failures inside a batch *)


Lemma batches_cons (records : list record) :
  records <> [] ->
  exists bs, batches records = take BATCH_SIZE records :: bs.
Proof.
  intros Hne. pose proof (batches_head records Hne) as H.
  destruct (batches records) as [|b bs]; [done|].
  injection H as ->. by exists bs.
Qed.

(** X5: when the store rejects the documents, [processBatch] ends the
    process with status 1 after its request, with the connection closed and
    nothing added to the collections or to [totalCards]; a run over a file
    with rows then stops in its first batch: one request, no card, no
    summary. *)
Theorem store_rejection_aborts (e : env) :
  (forall docs, insertMany_ok e docs = false) ->
  (forall records w,
     exists w',
       processBatch e records w = Exited 1 w'
       /\ magicCards w' = magicCards w
       /\ magicCollection w' = magicCollection w
       /\ totalCards w' = totalCards w
       /\ requests w' = requests w ++ [identifiers records]
       /\ (db w = true -> connected w' = false))
  /\ (forall rows cards0 coll0,
        rows <> [] ->
        exists w',
          run e rows (boot cards0 coll0) = (1%Z, w')
          /\ magicCards w' = []
          /\ magicCollection w' = []
          /\ totalCards w' = 0
          /\ connected w' = false
          /\ requests w' = [identifiers (take BATCH_SIZE (readCsv rows))]).
Proof.
  intros Hrej.
  assert (Hb : forall records w,
     exists w',
       processBatch e records w = Exited 1 w'
       /\ magicCards w' = magicCards w
       /\ magicCollection w' = magicCollection w
       /\ totalCards w' = totalCards w
       /\ requests w' = requests w ++ [identifiers records]
       /\ (db w = true -> connected w' = false)).
  { intros records w. pose proof (processBatch_cases e records w) as Hc.
    destruct (processBatch e records w) as [n w'|w'|c w']; [|done|].
    - destruct Hc as (data & docs & _ & _ & _ & _ & Hok & _).
      rewrite Hrej in Hok. done.
    - destruct Hc as (-> & Hconn & Hcards & Hcoll & Hreq & Htc).
      exists w'. by split_and!. }
  split; [exact Hb|].
  intros rows cards0 coll0 Hne.
  assert (Hrec : readCsv rows <> []).
  { intros E. apply (f_equal length) in E.
    rewrite readCsv_length in E. by destruct rows. }
  destruct (batches_cons _ Hrec) as [bs Hbs].
  destruct (Hb (take BATCH_SIZE (readCsv rows)) started)
    as (w' & Hrun & Hcards & Hcoll & Htc & Hreq & Hconn).
  exists w'. rewrite run_unfold, Hbs.
  rewrite (forBatches_cons_Exited _ _ _ _ _ _ Hrun).
  split_and!; try done. by apply Hconn.
Qed.

Lemma store_rejection_aborts_witness :
  exists w',
    run Sample.env_rejecting Sample.rows2 (boot [] []) = (1%Z, w')
    /\ magicCards w' = []
    /\ magicCollection w' = []
    /\ totalCards w' = 0
    /\ connected w' = false
    /\ requests w' = [identifiers (take BATCH_SIZE (readCsv Sample.rows2))].
Proof.
  destruct (store_rejection_aborts Sample.env_rejecting (fun _ => eq_refl))
    as (_ & H).
  apply (H Sample.rows2 [] []). discriminate.
Defined.


(** X6: a batch is stored whole or not at all.  When one card object of
    the response matches no record of the batch, or has no images to read,
    [processBatch] ends the process with status 1 and nothing of the batch
    is stored, whatever card objects came before it in the response. *)
Theorem bad_response_aborts_batch
  (e : env) (records : list record) (w : world)
  (data : list scryfall_card) (card : scryfall_card) :
  scryfall e (length (requests w)) (identifiers records) = Some data ->
  card ∈ data ->
  find records (card_id card) = None \/ imageSet card = None ->
  exists w',
    processBatch e records w = Exited 1 w'
    /\ magicCards w' = magicCards w
    /\ magicCollection w' = magicCollection w
    /\ totalCards w' = totalCards w
    /\ (db w = true -> connected w' = false).
Proof.
  intros Hsrv Hc Hbad.
  pose proof (processBatch_cases e records w) as Hcases.
  destruct (processBatch e records w) as [n w'|w'|c w'] eqn:Hrun; [|done|].
  - exfalso. clear Hcases. revert Hrun.
    unfold processBatch, try_catch. unfold_M. unfold post. rewrite Hsrv.
    match goal with |- context [mergeCards data ?b0 ?w0] =>
      pose proof (mergeCards_Returned_well_formed data b0 w0) as Hwf;
      destruct (mergeCards data b0 w0) as [b' w1|w1|c w1] end.
    + intros _. destruct (Hwf _ _ eq_refl card Hc) as [Hf Hi]. simpl in Hf.
      destruct Hbad as [Hbad|Hbad]; rewrite Hbad in *;
        by eapply is_Some_None.
    + unfold exit. done.
    + done.
  - destruct Hcases as (-> & Hconn & Hcards & Hcoll & _ & Htc).
    exists w'. by split_and!.
Qed.

Lemma bad_response_aborts_batch_witness :
  exists w',
    processBatch
      {| scryfall := fun _ _ =>
           Some [Sample.card "a"; Sample.faced "b" []];
         insertMany_ok := fun _ => true; now := 0 |}
      (readCsv Sample.rows2) started
    = Exited 1 w'
    /\ magicCards w' = magicCards started
    /\ magicCollection w' = magicCollection started
    /\ totalCards w' = totalCards started
    /\ (db started = true -> connected w' = false).
Proof.
  apply (bad_response_aborts_batch _ (readCsv Sample.rows2) started
           [Sample.card "a"; Sample.faced "b" []] (Sample.faced "b" [])).
  - reflexivity.
  - apply list_elem_of_further, list_elem_of_here.
  - right. reflexivity.
Defined.

(** X7: the card objects whose images cannot be read are exactly those
    without [image_uris] whose [card_faces] is missing or empty, or whose
    first face, or second face when there is one, has no [image_uris];
    faces after the second are never looked at. *)
Theorem imageSet_fails_iff (card : scryfall_card) :
  imageSet card = None <->
  card_image_uris card = None
  /\ match card_faces card with
     | None | Some [] => True
     | Some [f] => face_image_uris f = None
     | Some (f1 :: f2 :: _) =>
         face_image_uris f1 = None \/ face_image_uris f2 = None
     end.
Proof.
  unfold imageSet.
  destruct (card_image_uris card) as [u|]; [by split; [|intros []]|].
  destruct (card_faces card) as [[|[[u1|]] [|[[u2|]] faces]]|]; simpl;
    try (destruct (decide _); [|simpl in *; lia]); simpl;
    try (destruct (decide _); [simpl in *; lia|]); simpl;
    split; intros H; try done; try tauto; try (by auto);
    try (by destruct H as [_ [?|?]]); by destruct H.
Qed.

(** ** The documents of a batch *)


(** X8: the documents of a batch, one per card object of the response and
    in its order.  The document for a card object is the first record of
    the batch with its identifier, carrying the fields and images of the
    last card object of the response with that identifier: a record
    answered twice is handed over twice, both times the same; when the
    identifiers of the response are distinct, each document carries its own
    card object. *)
Theorem documents_of_batch
  (data : list scryfall_card) (records : list record)
  (w : world) (b' : batch_state) (w' : world) :
  mergeCards data {| objs := records; cards := [] |} w = Returned b' w' ->
  length (documents b') = length data
  /\ (forall k card,
        data !! k = Some card ->
        exists i r card',
          find records (card_id card) = Some (i, r)
          /\ last (filter (fun c => card_id c = card_id card) data)
             = Some card'
          /\ is_Some (imageSet card')
          /\ documents b' !! k = Some (merged card' r))
  /\ (forall k1 k2 card1 card2,
        data !! k1 = Some card1 -> data !! k2 = Some card2 ->
        card_id card1 = card_id card2 ->
        documents b' !! k1 = documents b' !! k2)
  /\ (NoDup (card_id <$> data) ->
      forall k card,
        data !! k = Some card ->
        exists i r,
          find records (card_id card) = Some (i, r)
          /\ documents b' !! k = Some (merged card r)).
Proof.
  intros H.
  pose proof (mergeCards_cases data {| objs := records; cards := [] |} w)
    as Hc.
  rewrite H in Hc. simpl in Hc.
  destruct Hc as (Hbase & Hcards & Hlen & _ & _ & Hen).
  pose proof (mergeCards_Returned_well_formed _ _ _ _ _ H) as Hwf.
  pose proof (mergeCards_objs _ _ _ _ _ H) as Hobjs. simpl in Hobjs.
  specialize (Hen (Forall_nil_2 _)).
  assert (Hvalid : Forall (fun i => is_Some (objs b' !! i)) (cards b')).
  { eapply Forall_impl; [exact Hen|]. intros i (o & -> & _). by eexists. }
  assert (Hdoc : forall k card,
            data !! k = Some card ->
            exists i r card',
              find records (card_id card) = Some (i, r)
              /\ last (filter (fun c => card_id c = card_id card) data)
                 = Some card'
              /\ is_Some (imageSet card')
              /\ documents b' !! k = Some (merged card' r)).
  { intros k card Hk.
    destruct (targets_lookup records data k card Hlen Hk)
      as (i & r & Hf & Hi).
    destruct (proj1 (find_Some _ _ _ _) Hf) as (Hri & _).
    pose proof (Hobjs i r Hri) as Ho.
    rewrite (same_id_filter _ _ _ _ _ Hf) in Ho.
    assert (Hin : card ∈ filter (fun c => card_id c = card_id card) data).
    { apply list_elem_of_filter. split; [done|].
      by eapply list_elem_of_lookup_2. }
    destruct (last (filter (fun c => card_id c = card_id card) data))
      as [card'|] eqn:Hl.
    2: { apply last_None in Hl. rewrite Hl in Hin.
         by apply elem_of_nil in Hin. }
    exists i, r, card'. split_and!; try done.
    - apply last_Some_elem_of, list_elem_of_filter in Hl as [_ Hl].
      by destruct (Hwf card' Hl).
    - unfold documents. rewrite omap_lookup by done.
      rewrite Hcards. simpl. rewrite Hi. simpl. exact Ho. }
  split_and!.
  - rewrite <- Hlen, <- Hcards. unfold documents. clear -Hvalid.
    induction Hvalid as [|i l [o Ho] _ IH]; [done|].
    change (omap (fun i => objs b' !! i) (i :: l))
      with (match objs b' !! i with
            | Some y => y :: omap (fun i => objs b' !! i) l
            | None => omap (fun i => objs b' !! i) l
            end).
    rewrite Ho. simpl. by rewrite IH.
  - exact Hdoc.
  - intros k1 k2 card1 card2 H1 H2 Hid.
    destruct (Hdoc k1 card1 H1) as (i1 & r1 & c1 & Hf1 & Hl1 & _ & ->).
    destruct (Hdoc k2 card2 H2) as (i2 & r2 & c2 & Hf2 & Hl2 & _ & ->).
    rewrite Hid in Hf1, Hl1. congruence.
  - intros Hnd k card Hk.
    destruct (Hdoc k card Hk) as (i & r & card' & Hf & Hl & _ & Hd).
    exists i, r. split; [done|]. rewrite Hd. do 2 f_equal.
    apply last_Some_elem_of, list_elem_of_filter in Hl as [Hid Hl].
    apply (NoDup_fmap_elem card_id data); try done.
    by eapply list_elem_of_lookup_2.
Qed.

Lemma documents_of_batch_witness :
  let data := [Sample.card "a"; Sample.card "b";
               Sample.faced "a" [Sample.face "t"]] in
  exists b' w',
    mergeCards data {| objs := readCsv Sample.rows2; cards := [] |} started
    = Returned b' w'
    /\ length (documents b') = 3
    /\ documents b' !! 0 = documents b' !! 2.
Proof.
  intros data.
  destruct (mergeCards data {| objs := readCsv Sample.rows2; cards := [] |}
              started) as [b' w'|w'|c w'] eqn:E;
    [|vm_compute in E; discriminate..].
  destruct (documents_of_batch _ _ _ _ _ E) as (Hlen & _ & Halias & _).
  exists b', w'. split; [reflexivity|]. split; [exact Hlen|].
  apply (Halias 0 2 (Sample.card "a") (Sample.faced "a" [Sample.face "t"]));
    reflexivity.
Defined.

(** ** Runs that complete *)

Lemma answered_well_tail e n0 b bs :
  answered_well e n0 (b :: bs) -> answered_well e (S n0) bs.
Proof.
  intros H k b' Hk. destruct (H (S k) b' Hk) as (data & Hsrv & Hrest).
  exists data. split; [|done].
  by replace (S n0 + k) with (n0 + S k) by lia.
Qed.

Lemma forBatches_succeeds (e : env) (bs : list (list record)) :
  forall w,
    answered_well e (length (requests w)) bs ->
    exists w', forBatches e bs w = Returned tt w'.
Proof.
  induction bs as [|b bs IH]; intros w Hans.
  - by eexists.
  - destruct (Hans 0 b eq_refl) as (data & Hsrv & Hwf & Hok).
    rewrite Nat.add_0_r in Hsrv.
    destruct (processBatch_accepts e b w data Hsrv Hwf Hok) as (w1 & Hb & _).
    rewrite (forBatches_cons_Returned _ _ _ _ _ _ Hb).
    apply IH. simpl.
    destruct (processBatch_Returned_docs _ _ _ _ _ Hb)
      as (_ & _ & _ & _ & _ & ->).
    by eapply answered_well_tail.
Qed.

Lemma forBatches_Returned_answered (e : env) (bs : list (list record)) :
  forall w u w',
    forBatches e bs w = Returned u w' ->
    answered_well e (length (requests w)) bs.
Proof.
  induction bs as [|b bs IH]; intros w u w' H k b' Hk; [done|].
  destruct (forBatches_cons_inv _ _ _ _ _ _ H) as (w1 & Hb & Hrest).
  destruct (processBatch_Returned_docs _ _ _ _ _ Hb)
    as (data & Hsrv & Hwf & Hok & _ & Hlen).
  destruct k as [|k].
  - injection Hk as <-. exists data. by rewrite Nat.add_0_r.
  - destruct (IH _ _ _ Hrest k b' Hk) as (data' & Hsrv' & Hrest').
    exists data'. split; [|done]. simpl in Hsrv'. rewrite Hlen in Hsrv'.
    by replace (length (requests w) + S k)
      with (S (length (requests w)) + k) by lia.
Qed.

(** X9: when a run completes.  A run ends with status 0 exactly when, for
    every batch k, the k-th request is answered by a response whose card
    objects all match a record of the batch and have images to read, the
    store takes the documents of the batch, and the sum of price times
    quantity over the matched records, batch after batch, is a number: the
    summary document is refused when its value is [NaN], and the run then
    ends with status 1. *)
Theorem run_completes
  (e : env) (rows : list (list string))
  (cards0 : list record) (coll0 : list collection_doc) :
  fst (run e rows (boot cards0 coll0)) = 0%Z
  <-> answered_well e 0 (batches (readCsv rows))
      /\ PrimFloat.is_nan
           (fold_left PrimFloat.add
              (lineValue <$> priced e 0 (batches (readCsv rows))) 0%float)
         = false.
Proof.
  rewrite run_unfold. split.
  - destruct (forBatches e (batches (readCsv rows)) started)
      as [u w'|w'|c w'] eqn:H.
    + rewrite (forBatches_totalPrice _ _ _ _ _ H). cbn [started requests
        totalPrice length].
      destruct (PrimFloat.is_nan _); [done|]. intros _.
      split; [|done]. exact (forBatches_Returned_answered _ _ _ _ _ H).
    + done.
    + pose proof (forBatches_cases e (batches (readCsv rows)) started) as Hc.
      rewrite H in Hc. destruct Hc as (-> & _). done.
  - intros [Hans Hnan].
    destruct (forBatches_succeeds e _ started Hans) as [w' H]. rewrite H.
    rewrite (forBatches_totalPrice _ _ _ _ _ H). cbn [started requests
      totalPrice length].
    by rewrite Hnan.
Qed.

Lemma known_well_formed (records : list record) :
  well_formed records (Sample.known (identifiers records)).
Proof.
  intros card Hc. unfold Sample.known in Hc.
  apply list_elem_of_omap in Hc as (x & Hx & Hcard).
  destruct x as [cid|]; [|done]. injection Hcard as <-.
  apply list_elem_of_fmap in Hx as (r & Hid & Hr).
  split; [|by eexists]. by eapply find_is_Some.
Qed.

Lemma run_completes_witness :
  fst (run Sample.env_all Sample.rows3 (boot [] [])) = 0%Z
  /\ answered_well Sample.env_all 0 (batches (readCsv Sample.rows3)).
Proof.
  destruct (run_completes Sample.env_all Sample.rows3 [] []) as [H1 H2].
  assert (H : fst (run Sample.env_all Sample.rows3 (boot [] [])) = 0%Z).
  { apply H2. split.
    - intros k b _. eexists. split; [reflexivity|].
      split; [apply known_well_formed|reflexivity].
    - reflexivity. }
  split; [exact H|exact (proj1 (H1 H))].
Defined.

Lemma find_aligned (b : list record) (k : nat) (r : record) (cid : string) :
  NoDup (identifiers b) ->
  b !! k = Some r ->
  scryfallId r = Some cid ->
  find b cid = Some (k, r).
Proof.
  intros Hnd Hk Hid. apply find_Some. split_and!; [done|done|].
  intros j o Hj Hlt Ho.
  assert (j = k); [|lia].
  apply (NoDup_lookup (identifiers b) j k (Some cid)); [done|..];
    unfold identifiers; rewrite list_lookup_fmap.
  - by rewrite Hj; simpl; rewrite Ho.
  - by rewrite Hk; simpl; rewrite Hid.
Qed.

(** A response that lists the batch, one card object per record and in
    order, matches every record with itself. *)
Lemma matched_aligned (b : list record) (data : list scryfall_card) :
  NoDup (identifiers b) ->
  (fun card => Some (card_id card)) <$> data = identifiers b ->
  matched b data = b /\ forall card, card ∈ data ->
                          is_Some (find b (card_id card)).
Proof.
  intros Hnd Hal.
  assert (Hk : forall k card,
            data !! k = Some card ->
            exists r, b !! k = Some r /\ find b (card_id card) = Some (k, r)).
  { intros k card Hc.
    apply (f_equal (fun l => l !! k)) in Hal.
    unfold identifiers in Hal. rewrite !list_lookup_fmap, Hc in Hal.
    destruct (b !! k) as [r|] eqn:Hr; [|done]. simpl in Hal.
    exists r. split; [done|]. apply find_aligned; [done|done|congruence]. }
  assert (Hfound : forall card, card ∈ data ->
                     is_Some (find b (card_id card))).
  { intros card (k & Hc)%list_elem_of_lookup.
    destruct (Hk k card Hc) as (r & _ & ->). by eexists. }
  split; [|done].
  apply list_eq. intros k. unfold matched.
  rewrite omap_lookup.
  - destruct (data !! k) as [card|] eqn:Hc; simpl.
    + destruct (Hk k card Hc) as (r & Hr & ->). done.
    + apply (f_equal length) in Hal. unfold identifiers in Hal.
      rewrite !length_fmap in Hal. symmetry. apply lookup_ge_None.
      apply lookup_ge_None in Hc. lia.
  - apply Forall_forall. intros card Hc.
    destruct (Hfound card Hc) as [[i o] ->]. by eexists.
Qed.

Lemma answered_in_order_tail e n0 b bs :
  answered_in_order e n0 (b :: bs) -> answered_in_order e (S n0) bs.
Proof.
  intros H k b' Hk. destruct (H (S k) b' Hk) as (Hnd & data & Hsrv & Hrest).
  split; [done|]. exists data. split; [|done].
  by replace (S n0 + k) with (n0 + S k) by lia.
Qed.

Lemma forBatches_in_order (e : env) (bs : list (list record)) :
  forall w,
    answered_in_order e (length (requests w)) bs ->
    exists w' docs,
      forBatches e bs w = Returned tt w'
      /\ magicCards w' = magicCards w ++ docs
      /\ base <$> docs = base <$> concat bs
      /\ totalPrice w'
         = fold_left PrimFloat.add (lineValue <$> concat bs) (totalPrice w).
Proof.
  induction bs as [|b bs IH]; intros w Hans.
  - exists w, []. by rewrite app_nil_r.
  - destruct (Hans 0 b eq_refl) as (Hnd & data & Hsrv & Hal & Him & Hok).
    rewrite Nat.add_0_r in Hsrv.
    destruct (matched_aligned b data Hnd Hal) as [Hm Hfound].
    destruct (processBatch_accepts e b w data Hsrv) as (w1 & Hb & _);
      [|done|].
    { intros card Hc. split; [by apply Hfound|].
      by apply (proj1 (Forall_forall _ _) Him). }
    pose proof (processBatch_cases e b w) as Hc. rewrite Hb in Hc.
    destruct Hc as (data' & docs & Hsrv' & _ & Hreq & Hcards & _ & Hbase & _
                    & _ & Htot & _).
    assert (data' = data) as -> by congruence. rewrite Hm in Hbase, Htot.
    rewrite (forBatches_cons_Returned _ _ _ _ _ _ Hb).
    destruct (IH (counted (length b) w1)) as (w' & docs' & Hrun & Hc' & Hb' & Ht').
    { simpl. rewrite Hreq, length_app. simpl.
      replace (length (requests w) + 1) with (S (length (requests w))) by lia.
      by eapply answered_in_order_tail. }
    exists w', (docs ++ docs'). simpl in *. split_and!.
    + done.
    + by rewrite Hc', Hcards, app_assoc.
    + by rewrite !fmap_app, Hbase, Hb'.
    + by rewrite Ht', Htot, fmap_app, fold_left_app.
Qed.

(** X10: when every batch is answered with one card object per record, in
    the order of the request and each with images to read, no batch holds
    an identifier twice and the store takes the documents of each batch,
    the store holds at the end one enriched card per row, in the order of
    the file, with the columns of its row.  When the sum, row after row, of
    price times quantity is a number, the run ends with status 0 and the
    summary counts the rows and has this sum as its value; when it is
    [NaN], the summary is refused: the run ends with status 1 and no
    summary is stored. *)
Theorem in_order_run_stores_every_row
  (e : env) (rows : list (list string))
  (cards0 : list record) (coll0 : list collection_doc) :
  answered_in_order e 0 (batches (readCsv rows)) ->
  exists code w',
    run e rows (boot cards0 coll0) = (code, w')
    /\ base <$> magicCards w' = base <$> readCsv rows
    /\ Forall has_all_fields (magicCards w')
    /\ let v := fold_left PrimFloat.add
                  (lineValue <$> readCsv rows) 0%float in
       if PrimFloat.is_nan v
       then code = 1%Z /\ magicCollection w' = []
       else code = 0%Z
            /\ magicCollection w'
               = [{| value := v; total := length rows; updated := now e |}].
Proof.
  intros Hans.
  destruct (forBatches_in_order e _ started Hans)
    as (w1 & docs & Hrun & Hcards & Hbase & Htot).
  pose proof (forBatches_cases e (batches (readCsv rows)) started) as Hc.
  rewrite Hrun in Hc.
  destruct Hc as (Htc & _ & _ & _ & _ & Hcoll & docs' & Hcards' & Hen).
  rewrite run_unfold, Hrun.
  rewrite batches_concat in *. cbn [started totalPrice totalCards magicCards
    magicCollection app] in *.
  assert (Hfields : Forall has_all_fields (magicCards w1)).
  { rewrite Hcards'. eapply Forall_impl; [exact Hen|].
    intros o. apply is_enriched_fields. }
  cbv zeta. rewrite <- Htot.
  destruct (PrimFloat.is_nan (totalPrice w1)).
  - exists 1%Z, (disconnect w1). simpl. split_and!; try done.
    by rewrite Hcards.
  - exists 0%Z, (finished e w1). simpl. split_and!; try done.
    + by rewrite Hcards.
    + by rewrite Hcoll, Htc, readCsv_length.
Qed.

Lemma in_order_run_stores_every_row_witness :
  exists code w',
    run Sample.env_all Sample.rows3 (boot [] []) = (code, w')
    /\ base <$> magicCards w' = base <$> readCsv Sample.rows3
    /\ Forall has_all_fields (magicCards w')
    /\ let v := fold_left PrimFloat.add
                  (lineValue <$> readCsv Sample.rows3) 0%float in
       if PrimFloat.is_nan v
       then code = 1%Z /\ magicCollection w' = []
       else code = 0%Z
            /\ magicCollection w'
               = [{| value := v; total := length Sample.rows3;
                     updated := now Sample.env_all |}].
Proof.
  apply (in_order_run_stores_every_row Sample.env_all Sample.rows3 [] []).
  intros k b Hk. destruct k as [|k]; [|done]. injection Hk as <-.
  split.
  - apply (bool_decide_unpack _). vm_compute. exact I.
  - eexists. split; [reflexivity|]. split; [reflexivity|].
    split; [|reflexivity]. repeat constructor; by eexists.
Defined.

(** ** Where the stored cards come from *)

(** X11: whatever way a run ends, every card in the store comes from a row
    of the file and has the columns of that row as [readCsv] read them:
    [foil] is false exactly when the finish column is [normal], quantity,
    Manabox id and Scryfall id are the cells as they are, and the price is
    the price column times 100.  The merge never changes these fields. *)
Theorem stored_card_has_its_row
  (e : env) (rows : list (list string))
  (cards0 : list record) (coll0 : list collection_doc) (d : record) :
  d ∈ magicCards (snd (run e rows (boot cards0 coll0))) ->
  exists row,
    row ∈ rows
    /\ (foil d = false <-> row !! 4 = Some "normal")
    /\ quantity d = row !! 6
    /\ manaboxId d = row !! 7
    /\ scryfallId d = row !! 8
    /\ price d = PrimFloat.mul (ToNumber (row !! 9)) 100.
Proof.
  intros Hd.
  destruct (stored_from_records e rows cards0 coll0 d Hd)
    as (k & row & Hrow & Hbase).
  exists row.
  split; [by eapply list_elem_of_lookup_2|].
  unfold base in Hbase. injection Hbase as -> -> -> -> ->. simpl.
  split_and!; try done.
  by destruct (decide (row !! 4 = Some "normal")).
Qed.

Lemma stored_card_has_its_row_witness :
  exists row,
    row ∈ Sample.rows2
    /\ (foil (readRow (Sample.row "foil" "1" "m2" "b" "0.07")) = false
        <-> row !! 4 = Some "normal")
    /\ Some "1" = row !! 6
    /\ Some "m2" = row !! 7
    /\ Some "b" = row !! 8
    /\ price (readRow (Sample.row "foil" "1" "m2" "b" "0.07"))
       = PrimFloat.mul (ToNumber (row !! 9)) 100.
Proof.
  pose (d := merged (Sample.card "b")
               (readRow (Sample.row "foil" "1" "m2" "b" "0.07"))).
  apply (stored_card_has_its_row Sample.env_all Sample.rows2 [] [] d).
  vm_compute. apply list_elem_of_further, list_elem_of_here.
Defined.

(** ** A value that is not a number *)

Lemma add_nan_r (x : float) : PrimFloat.add x nan = nan.
Proof.
  apply Prim2SF_inj. rewrite add_spec.
  change (Prim2SF nan) with S754_nan.
  by destruct (Prim2SF x) as [| | |[] ? ?].
Qed.

Lemma add_nan_l (x : float) : PrimFloat.add nan x = nan.
Proof.
  apply Prim2SF_inj. rewrite add_spec.
  change (Prim2SF nan) with S754_nan. reflexivity.
Qed.

Lemma mul_nan_r (x : float) : PrimFloat.mul x nan = nan.
Proof.
  apply Prim2SF_inj. rewrite mul_spec.
  change (Prim2SF nan) with S754_nan.
  by destruct (Prim2SF x) as [| | |[] ? ?].
Qed.

Lemma mul_nan_l (x : float) : PrimFloat.mul nan x = nan.
Proof.
  apply Prim2SF_inj. rewrite mul_spec.
  change (Prim2SF nan) with S754_nan. reflexivity.
Qed.

Lemma fold_add_nan (l : list float) : fold_left PrimFloat.add l nan = nan.
Proof. induction l as [|x l IH]; [done|]. simpl. by rewrite add_nan_l. Qed.

Lemma fold_add_has_nan (l : list float) (a : float) :
  nan ∈ l -> fold_left PrimFloat.add l a = nan.
Proof.
  intros (l1 & l2 & ->)%list_elem_of_split.
  rewrite fold_left_app. simpl. rewrite add_nan_r. apply fold_add_nan.
Qed.

Lemma lineValue_nan (r : record) :
  price r = nan \/ ToNumber (quantity r) = nan -> lineValue r = nan.
Proof.
  unfold lineValue. intros [->| ->]; [apply mul_nan_l|apply mul_nan_r].
Qed.

Lemma priced_nan (e : env) (bs : list (list record)) :
  forall n0 k b data r,
    bs !! k = Some b ->
    scryfall e (n0 + k) (identifiers b) = Some data ->
    r ∈ matched b data ->
    r ∈ priced e n0 bs.
Proof.
  induction bs as [|b0 bs IH]; intros n0 k b data r Hk Hsrv Hr; [done|].
  cbn [priced]. apply elem_of_app. destruct k as [|k].
  - left. injection Hk as <-. rewrite Nat.add_0_r in Hsrv. by rewrite Hsrv.
  - right. apply (IH (S n0) k b data r); [done| |done].
    by replace (S n0 + k) with (n0 + S k) by lia.
Qed.

(** X12: one matched record whose price times quantity is not a number
    makes the run fail at the summary.  When a record that the response of
    its batch matches has a price times quantity that is [NaN] (its price
    or its quantity is not a number, or one is infinite and the other 0),
    the run ends with status 1 and no summary document is stored, whatever
    the other rows are worth: either a batch fails, or the loop ends with a
    total that is [NaN] and the summary is refused. *)
Theorem nan_row_poisons_value
  (e : env) (rows : list (list string))
  (cards0 : list record) (coll0 : list collection_doc)
  (k : nat) (b : list record) (data : list scryfall_card) (r : record) :
  batches (readCsv rows) !! k = Some b ->
  scryfall e k (identifiers b) = Some data ->
  r ∈ matched b data ->
  lineValue r = nan ->
  fst (run e rows (boot cards0 coll0)) = 1%Z
  /\ magicCollection (snd (run e rows (boot cards0 coll0))) = [].
Proof.
  intros Hk Hsrv Hr Hv. rewrite run_unfold.
  pose proof (forBatches_cases e (batches (readCsv rows)) started) as Hc.
  destruct (forBatches e (batches (readCsv rows)) started)
    as [u w1|w1|c w1] eqn:H; [|done|].
  - destruct Hc as (_ & _ & _ & _ & _ & Hcoll & _).
    rewrite (forBatches_totalPrice _ _ _ _ _ H).
    rewrite fold_add_has_nan.
    + done.
    + rewrite <- Hv. apply list_elem_of_fmap_2.
      by apply (priced_nan e _ 0 k b data r).
  - destruct Hc as (-> & _ & Hcoll & _). by split.
Qed.

Lemma nan_row_poisons_value_witness :
  let rows := Sample.rows2 ++ [Sample.row "normal" "0" "m3" "c" "1e308"] in
  price (readRow (Sample.row "normal" "0" "m3" "c" "1e308")) = infinity
  /\ ToNumber (Some "0") = 0%float
  /\ fst (run Sample.env_all rows (boot [] [])) = 1%Z
  /\ magicCollection (snd (run Sample.env_all rows (boot [] []))) = [].
Proof.
  intros rows. split; [reflexivity|]. split; [reflexivity|].
  apply (nan_row_poisons_value Sample.env_all rows [] [] 0
           (readCsv rows)
           (Sample.known (identifiers (readCsv rows)))
           (readRow (Sample.row "normal" "0" "m3" "c" "1e308"))).
  - reflexivity.
  - reflexivity.
  - vm_compute. do 2 apply list_elem_of_further. apply list_elem_of_here.
  - reflexivity.
Defined.

(** ** Rows that share a lookup identifier *)

Lemma forBatches_first_match (e : env) (bs : list (list record)) :
  forall w,
    exists docs,
      magicCards (world_of (forBatches e bs w)) = magicCards w ++ docs
      /\ forall d, d ∈ docs ->
           exists q b i m cid,
             bs !! q = Some b /\ find b cid = Some (i, m) /\ base d = base m.
Proof.
  induction bs as [|b bs IH]; intros w.
  - exists []. split; [by rewrite app_nil_r|]. by intros d ?%elem_of_nil.
  - pose proof (processBatch_cases e b w) as Hc.
    destruct (processBatch e b w) as [n w1|w1|c w1] eqn:Hb; [|done|].
    + destruct Hc as (data & docs & _ & _ & _ & Hcards & _ & Hbase & _).
      rewrite (forBatches_cons_Returned _ _ _ _ _ _ Hb).
      destruct (IH (counted n w1)) as (docs' & Hc' & Hfrom).
      exists (docs ++ docs'). split.
      * rewrite Hc'. simpl. by rewrite Hcards, app_assoc.
      * intros d [Hd|Hd]%elem_of_app.
        -- apply (list_elem_of_fmap_2 base) in Hd. rewrite Hbase in Hd.
           apply list_elem_of_fmap in Hd as (m & Hbm & Hm).
           apply elem_of_matched in Hm as (card & i & _ & Hf).
           by exists 0, b, i, m, (card_id card).
        -- destruct (Hfrom d Hd) as (q & b' & i & m & cid & Hq & Hf & Hbm).
           by exists (S q), b', i, m, cid.
    + rewrite (forBatches_cons_Exited _ _ _ _ _ _ Hb). simpl.
      destruct Hc as (_ & _ & Hcards & _). exists [].
      split; [by rewrite app_nil_r|]. by intros d ?%elem_of_nil.
Qed.

(** X13: of the rows of one batch that share a lookup identifier, only the
    first can reach the store.  Every stored card has the columns of a row
    that has a lookup identifier and that no earlier row of the same batch
    (the same block of 75 rows) shares it with; a later row with that
    identifier, like a row without one, is never stored. *)
Theorem only_first_row_of_an_id_is_stored
  (e : env) (rows : list (list string))
  (cards0 : list record) (coll0 : list collection_doc) (d : record) :
  d ∈ magicCards (snd (run e rows (boot cards0 coll0))) ->
  exists k row cid,
    rows !! k = Some row
    /\ base d = base (readRow row)
    /\ row !! 8 = Some cid
    /\ forall j row',
         rows !! j = Some row' -> j < k ->
         j / BATCH_SIZE = k / BATCH_SIZE ->
         row' !! 8 <> Some cid.
Proof.
  intros Hd.
  destruct (forBatches_first_match e (batches (readCsv rows)) started)
    as (docs & Hcards & Hfrom).
  assert (Hin : d ∈ docs).
  { rewrite run_unfold in Hd. simpl in Hcards.
    destruct (forBatches e (batches (readCsv rows)) started)
      as [u w|w|c w]; simpl in *;
      try destruct (PrimFloat.is_nan (totalPrice w));
      simpl in *; by rewrite Hcards in Hd. }
  destruct (Hfrom d Hin) as (q & b & i & m & cid & Hq & Hf & Hbase).
  unfold batches in Hq. apply batches_loop_lookup in Hq as [-> Hq].
  destruct (proj1 (find_Some _ _ _ _) Hf) as (Hi & Hid & Hfirst).
  assert (Hlt : i < BATCH_SIZE).
  { apply lookup_lt_Some in Hi. rewrite length_take in Hi. lia. }
  assert (Hlook : forall i', i' < BATCH_SIZE ->
            take BATCH_SIZE (drop (0 + q * BATCH_SIZE) (readCsv rows)) !! i'
            = readRow <$> rows !! (q * BATCH_SIZE + i')).
  { intros i' Hi'. by rewrite lookup_take_lt, lookup_drop, readCsv_lookup. }
  rewrite Hlook in Hi by done.
  destruct (rows !! (q * BATCH_SIZE + i)) as [row|] eqn:Hrow; [|done].
  injection Hi as <-.
  exists (q * BATCH_SIZE + i), row, cid. split_and!; try done.
  intros j row' Hj Hjk Hdiv Hsame.
  assert (Hq' : (q * BATCH_SIZE + i) / BATCH_SIZE = q).
  { rewrite Nat.div_add_l by (unfold BATCH_SIZE; lia).
    rewrite Nat.div_small by done. lia. }
  rewrite Hq' in Hdiv.
  pose proof (Nat.div_mod_eq j BATCH_SIZE) as Hdm. rewrite Hdiv in Hdm.
  assert (Hm : j mod BATCH_SIZE < i) by lia.
  apply (Hfirst (j mod BATCH_SIZE) (readRow row')); [|done|done].
  rewrite Hlook by lia.
  replace (q * BATCH_SIZE + j mod BATCH_SIZE) with j by lia.
  by rewrite Hj.
Qed.

Lemma only_first_row_of_an_id_is_stored_witness :
  let rows := [Sample.row "normal" "1" "m1" "a" "1.00";
               Sample.row "foil" "1" "m2" "a" "5.00"] in
  exists k row cid,
    rows !! k = Some row
    /\ base (merged (Sample.card "a") (readRow (Sample.row "normal" "1" "m1" "a" "1.00")))
       = base (readRow row)
    /\ row !! 8 = Some cid
    /\ forall j row',
         rows !! j = Some row' -> j < k ->
         j / BATCH_SIZE = k / BATCH_SIZE ->
         row' !! 8 <> Some cid.
Proof.
  intros rows.
  apply (only_first_row_of_an_id_is_stored Sample.env_all rows [] []).
  vm_compute. apply list_elem_of_here.
Defined.

(** X14: a response without card objects is no error.  [processBatch]
    hands the store an empty list and, when the store takes it, returns the
    length of the batch: no card is stored and nothing is added to
    [totalPrice], but the batch is counted and the run goes on. *)
Theorem empty_response_is_counted
  (e : env) (records : list record) (w : world) :
  scryfall e (length (requests w)) (identifiers records) = Some [] ->
  insertMany_ok e [] = true ->
  exists w',
    processBatch e records w = Returned (length records) w'
    /\ magicCards w' = magicCards w
    /\ totalPrice w' = totalPrice w
    /\ totalCards w' = totalCards w
    /\ connected w' = connected w.
Proof.
  intros Hsrv Hok.
  unfold processBatch, try_catch. unfold_M. unfold post. rewrite Hsrv.
  simpl. unfold_M. unfold saveCards, documents. simpl. rewrite Hok.
  eexists. split; [reflexivity|]. simpl. by rewrite app_nil_r.
Qed.

Lemma empty_response_is_counted_witness :
  exists w',
    processBatch
      {| scryfall := fun _ _ => Some []; insertMany_ok := fun _ => true;
         now := 0 |}
      (readCsv Sample.rows2) started
    = Returned 2 w'
    /\ magicCards w' = []
    /\ totalPrice w' = 0%float
    /\ totalCards w' = 0
    /\ connected w' = true.
Proof.
  apply (empty_response_is_counted
           {| scryfall := fun _ _ => Some []; insertMany_ok := fun _ => true;
              now := 0 |} (readCsv Sample.rows2) started);
    reflexivity.
Defined.
